(** * xmalloc: a bucket allocator with per-chunk bitmaps

    Shallow embedding of [xmalloc.c] and the properties of its
    specification.  Machine integers are [Z] with the wrap-around of their
    C type written out; the address space is a byte store indexed by [Z];
    [page_header] structs are kept as records indexed by the address of the
    chunk they start.  The target is LP64 little-endian (x86-64), which is
    what the layout comment above [BITMAP_LONGS] in the source assumes. *)

From Stdlib Require Import ZArith Lia Bool List.
From stdpp Require Import base option list gmap.

Local Open Scope Z_scope.

(** ** Machine integers *)

Definition wrap8 (z : Z) : Z := z mod 2 ^ 8.
Definition wrap16 (z : Z) : Z := z mod 2 ^ 16.
Definition wrap32 (z : Z) : Z := z mod 2 ^ 32.
Definition wrap64 (z : Z) : Z := z mod 2 ^ 64.

(** ** Preprocessor definitions and constants *)

Definition BUCKET_NUM : nat := 21.
Definition BUCKET_MIN : Z := 8.
Definition BUCKET_MAX : Z := 8192.
Definition ARENA_NUM : Z := 8.
Definition SMALL_PAGE : Z := 4096.
Definition ALLOC_CHUNK : Z := 2097152.
Definition BITMAP_LONGS : nat := 2497.

(** [sizeof(page_header)] on LP64: one byte of [size] padded to 8, the
    8-byte [next_page], the 4-byte [last_offset] padded to 8, and
    [BITMAP_LONGS] 8-byte words. *)
Definition sizeof_page_header : Z := 8 + 8 + 8 + 8 * Z.of_nat BITMAP_LONGS.

Definition c_Non_Bucket_Flag : Z := 0xFF.
Definition c_Bucket_Flag : Z := 0x00.
Definition c_Non_Bucket_Metadata_Size : Z := 0x09.
Definition c_Bucket_Metadata_Size : Z := 0x05.
Definition c_Header_Pages_Needed : Z := 0x05.
Definition c_64_MSB_High : Z := 0x8000000000000000.
Definition c_64_All_High : Z := 0xFFFFFFFFFFFFFFFF.

Definition c_Bucket_Sizes : list Z :=
  [ 0x00000008; 0x0000000C; 0x00000010; 0x00000018;
    0x00000020; 0x00000030; 0x00000040; 0x00000060;
    0x00000080; 0x000000C0; 0x00000100; 0x00000180;
    0x00000200; 0x00000300; 0x00000400; 0x00000600;
    0x00000800; 0x00000C00; 0x00001000; 0x00001800;
    0x00002000 ].

Definition c_MMAP_Chunks : list Z :=
  [ 0x01; 0x01; 0x01; 0x01; 0x02; 0x02; 0x02; 0x02;
    0x04; 0x04; 0x04; 0x04; 0x08; 0x08; 0x08; 0x08;
    0x10; 0x10; 0x10; 0x10; 0x20 ].

(** ** Encoded size functions *)

(** The loop [while (powertwo--) size_p *= 0x2;] on a [size_t]. *)
Fixpoint double_times (powertwo : nat) (size_p : Z) : Z :=
  match powertwo with
  | O => size_p
  | S k => double_times k (wrap64 (size_p * 0x2))
  end.

Definition parse_header_size (size : Z) : Z :=
  let intermediate := wrap8 (Z.shiftr size 0x07) in
  let powertwo := Z.land size 0x7F in
  let size_p := double_times (Z.to_nat powertwo) 0x1 in
  wrap64 (size_p + wrap64 (intermediate * size_p) / 2).

(** The loop [while (size != 0x01) { powertwo++; size /= 0x2; }]; it runs
    forever on [size = 0], so it takes fuel. *)
Fixpoint gen_loop (fuel : nat) (size powertwo : Z) : option Z :=
  match fuel with
  | O => None
  | S fuel' =>
      if size =? 0x01 then Some powertwo
      else gen_loop fuel' (size / 0x2) (wrap8 (powertwo + 1))
  end.

(** Result of a C function that can stop at a failed [assert] or not
    return at all. *)
Inductive partial (A : Type) : Type :=
  | Done (a : A)
  | AssertFailed
  | Loops.
Arguments Done {A} a.
Arguments AssertFailed {A}.
Arguments Loops {A}.

Definition gen_header_size_fuel (fuel : nat) (size : Z) : partial Z :=
  if size <? BUCKET_MIN then AssertFailed
  else
    let intermediate := if size mod 0x3 =? 0 then 0x80 else 0x00 in
    match gen_loop fuel size 0x00 with
    | Some powertwo => Done (Z.lor intermediate powertwo)
    | None => Loops
    end.

(** A [size_t] is below [2^64], so 64 rounds of halving are enough
    (lemma [gen_loop_total]). *)
Definition gen_header_size (size : Z) : partial Z :=
  gen_header_size_fuel 64 size.

(** ** Program state *)

(** A [page_header] struct; [hsize] is its [size] field. *)
Record page_header : Type := mk_header {
  hsize : Z;              (* uint8_t, encoded bucket size *)
  next_page : Z;          (* struct page_header*, 0 is the null pointer *)
  last_offset : Z;        (* uint32_t *)
  bitmap : list Z         (* uint64_t [BITMAP_LONGS] *)
}.

Record state : Type := mk_state {
  headers : gmap Z page_header;        (* the header at the start of each chunk *)
  mem : gmap Z Z;                      (* every other byte; absent bytes read 0 *)
  mappings : gmap Z Z;                 (* live mappings: base address to length *)
  next_map : Z;                        (* where the kernel places the next mapping *)
  g_Bucket_Stacks : gmap (nat * Z) Z;  (* [bucket][arena], absent is null *)
  t_Favorite_Arenas : gmap nat Z       (* thread local, absent is 0 *)
}.

Definition set_headers (f : gmap Z page_header → gmap Z page_header) (s : state) : state :=
  mk_state (f (headers s)) (mem s) (mappings s) (next_map s)
           (g_Bucket_Stacks s) (t_Favorite_Arenas s).

Definition set_mem (f : gmap Z Z → gmap Z Z) (s : state) : state :=
  mk_state (headers s) (f (mem s)) (mappings s) (next_map s)
           (g_Bucket_Stacks s) (t_Favorite_Arenas s).

Definition set_stack (bucket_i : nat) (arena : Z) (header : Z) (s : state) : state :=
  mk_state (headers s) (mem s) (mappings s) (next_map s)
           (<[(bucket_i, arena) := header]> (g_Bucket_Stacks s)) (t_Favorite_Arenas s).

Definition stack_head (s : state) (bucket_i : nat) (arena : Z) : Z :=
  default 0 (g_Bucket_Stacks s !! (bucket_i, arena)).

Definition favorite (s : state) (bucket_i : nat) : Z :=
  default 0 (t_Favorite_Arenas s !! bucket_i).

(** *** Byte-addressed memory, little endian *)

Definition read8 (m : gmap Z Z) (a : Z) : Z := default 0 (m !! a).

Fixpoint read_le (n : nat) (m : gmap Z Z) (a : Z) : Z :=
  match n with
  | O => 0
  | S k => read8 m a + 2 ^ 8 * read_le k m (a + 1)
  end.

Fixpoint store_le (n : nat) (a v : Z) (m : gmap Z Z) : gmap Z Z :=
  match n with
  | O => m
  | S k => <[a := v mod 2 ^ 8]> (store_le k (a + 1) (v / 2 ^ 8) m)
  end.

Definition load8 (s : state) (a : Z) : Z := read8 (mem s) a.
Definition load_le (n : nat) (s : state) (a : Z) : Z := read_le n (mem s) a.
Definition load32 := load_le 4.
Definition load64 := load_le 8.
Definition store8 (a v : Z) : state → state := set_mem (store_le 1 a v).
Definition store32 (a v : Z) : state → state := set_mem (store_le 4 a v).
Definition store64 (a v : Z) : state → state := set_mem (store_le 8 a v).

(** [memcpy(dst, src, n)] for regions that do not overlap. *)
Definition memcpy (dst src n : Z) (s : state) : state :=
  set_mem (λ m, foldl (λ m' i, <[dst + i := load8 s (src + i)]> m') m (seqZ 0 n)) s.

(** *** The operating system *)

Definition round_up_to_page (n : Z) : Z := (n + SMALL_PAGE - 1) / SMALL_PAGE * SMALL_PAGE.

(** [mmap(0, len, ...)] of anonymous memory, for a request the kernel
    grants: it returns the address [next_map] and never hands out an address
    twice; the pages read as zero.  A refusal, where the real call returns
    [MAP_FAILED] (which the tests [!ptr] of the callers do not catch), is
    outside the model: what is proved of a mapping is proved of a granted
    one, see [mmap_granted]. *)
Definition mmap (len : Z) (s : state) : Z * state :=
  (next_map s,
   mk_state (headers s) (mem s) (<[next_map s := len]> (mappings s))
            (next_map s + round_up_to_page len)
            (g_Bucket_Stacks s) (t_Favorite_Arenas s)).

(** [munmap(base, len)] returns 0 for a page-aligned base and a positive
    length, and -1 otherwise. *)
Definition munmap (base len : Z) (s : state) : Z * state :=
  if (base mod SMALL_PAGE =? 0) && (0 <? len) then
    (0, mk_state (delete base (headers s)) (mem s) (delete base (mappings s))
                 (next_map s) (g_Bucket_Stacks s) (t_Favorite_Arenas s))
  else (-1, s).

(** [madvise(addr, len, MADV_DONTNEED)] on pages that are still untouched. *)
Definition madvise (addr len : Z) (s : state) : Z := 0.

(** *** Outcomes of the stateful functions *)

(** What a [fprintf(stderr, ...)] before [exit(1)] reports. *)
Inductive diag : Type :=
  | mmap_failed (size : Z)
  | madvise_error (ptr size : Z)
  | mmap_failed_large (size : Z)
  | munmap_error (ptr : Z)
  | arena_flag_error (ptr flag : Z)
  | realloc_flag_error (ptr flag : Z).

Inductive outcome (A : Type) : Type :=
  | Ret (a : A) (s : state)      (* returns [a] in state [s] *)
  | Exit (d : diag) (s : state)  (* prints [d], then [exit(1)] in state [s] *)
  | Abort (s : state)            (* a failed [assert] *)
  | Undefined                    (* array access out of bounds *)
  | Diverges.                    (* no result with the fuel given *)
Arguments Ret {A} a s.
Arguments Exit {A} d s.
Arguments Abort {A} s.
Arguments Undefined {A}.
Arguments Diverges {A}.

Definition M (A : Type) : Type := state → outcome A.

Definition ret {A} (a : A) : M A := λ s, Ret a s.

Definition bind {A B} (m : M A) (k : A → M B) : M B :=
  λ s, match m s with
       | Ret a s' => k a s'
       | Exit d s' => Exit d s'
       | Abort s' => Abort s'
       | Undefined => Undefined
       | Diverges => Diverges
       end.

Definition modify (f : state → state) : M unit := λ s, Ret tt (f s).

Notation "x <~ m ; k" := (bind m (λ x, k))
  (at level 20, m at level 100, k at level 200, only parsing).
Notation "m ;; k" := (bind m (λ _, k))
  (at level 100, k at level 200, right associativity, only parsing).

Definition lift_partial {A} (p : partial A) : M A :=
  λ s, match p with
       | Done a => Ret a s
       | AssertFailed => Abort s
       | Loops => Diverges
       end.

Definition assert (b : bool) : M unit := λ s, if b then Ret tt s else Abort s.

(** Reads [header->...]; a pointer that is not the start of a chunk is
    outside the model. *)
Definition get_header (header : Z) : M page_header :=
  λ s, match headers s !! header with
       | Some h => Ret h s
       | None => Undefined
       end.

Definition put_header (header : Z) (h : page_header) : M unit :=
  modify (set_headers <[header := h]>).

(** ** mmap functions *)

Definition mmap_bucket (bucket_i : nat) : M Z :=
  assert (bucket_i <? BUCKET_NUM)%nat ;;
  match c_MMAP_Chunks !! bucket_i, c_Bucket_Sizes !! bucket_i with
  | Some chunks, Some bsize =>
      let mmap_size := chunks * ALLOC_CHUNK in
      λ s,
        let '(new_bucket, s1) := mmap mmap_size s in
        if new_bucket =? 0 then Exit (mmap_failed mmap_size) s1
        else if negb (madvise (new_bucket + SMALL_PAGE * c_Header_Pages_Needed)
                              (mmap_size - SMALL_PAGE * c_Header_Pages_Needed) s1 =? 0)
        then Exit (madvise_error new_bucket mmap_size) s1
        else
          (enc <~ lift_partial (gen_header_size bsize) ;
           put_header new_bucket (mk_header enc 0 0 (replicate BITMAP_LONGS 0)) ;;
           ret new_bucket) s1
  | _, _ => λ _, Undefined
  end.

Definition mmap_non_bucket (size : Z) : M Z :=
  assert (BUCKET_MAX <? size) ;;
  let size := wrap64 (size + c_Non_Bucket_Metadata_Size) in
  let size := wrap64 ((size / SMALL_PAGE + (if size mod SMALL_PAGE =? 0 then 0x0 else 0x1))
                      * SMALL_PAGE) in
  λ s,
    let '(ptr, s1) := mmap size s in
    if ptr =? 0 then Exit (mmap_failed_large size) s1
    else
      let s2 := store64 ptr size s1 in
      let ptr := ptr + 8 in
      let s3 := store8 ptr c_Non_Bucket_Flag s2 in
      let ptr := ptr + 1 in
      Ret ptr s3.

(** ** Push and pop on the bucket stacks *)

(** One thread is modelled: every mutex is free when it is asked for, so
    [pthread_mutex_trylock] returns 0 and the favorite arena stays. *)

Definition bitmap_size_of (chunks bsize : Z) : Z :=
  wrap32 ((chunks * ALLOC_CHUNK - sizeof_page_header) / (bsize + c_Bucket_Metadata_Size)).

(** The inner [while (offset != header->last_offset)] loop: what leaves
    it, and one turn of it. *)
Inductive scan_result : Type :=
  | Found (offset bitmap_i bitmap_shift : Z)  (* left by [break] *)
  | Wrapped                                   (* the loop condition failed *)
  | BadIndex                                  (* read outside [bitmap] *)
  | NoFuel.

Inductive scan_turn : Type :=
  | Next (offset : Z)
  | Leave (r : scan_result).

Definition scan_step (h : page_header) (bitmap_size offset : Z) : scan_turn :=
  if offset =? last_offset h then Leave Wrapped
  else
    let bitmap_i := wrap16 (offset / 64) in
    let bitmap_shift := wrap8 (offset mod 64) in
    match bitmap h !! Z.to_nat bitmap_i with
    | None => Leave BadIndex
    | Some w =>
        if (bitmap_shift =? 0x00) && (w =? c_64_All_High) then
          Next (wrap32 (offset + 64))
        else if Z.land w (Z.shiftr c_64_MSB_High bitmap_shift) =? 0x00 then
          Leave (Found offset bitmap_i bitmap_shift)
        else
          Next (wrap32 (offset + 0x01) mod bitmap_size)
    end.

Fixpoint scan_chunk (fuel : nat) (h : page_header) (bitmap_size offset : Z) : scan_result :=
  match fuel with
  | O => NoFuel
  | S fuel' =>
      match scan_step h bitmap_size offset with
      | Next offset' => scan_chunk fuel' h bitmap_size offset'
      | Leave r => r
      end
  end.

(** The outer [while (header)] loop over the pages of one stack. *)
Inductive stack_result : Type :=
  | FoundIn (header offset bitmap_i bitmap_shift : Z)
  | NoBucket                                  (* [header] reached null *)
  | Stuck (r : scan_result).                  (* [BadIndex] or [NoFuel], or a bad link *)

Fixpoint scan_stack (fuel : nat) (s : state) (bitmap_size header : Z) : stack_result :=
  match fuel with
  | O => Stuck NoFuel
  | S fuel' =>
      if header =? 0 then NoBucket
      else
        match headers s !! header with
        | None => Stuck BadIndex
        | Some h =>
            match scan_chunk fuel h bitmap_size
                    (wrap32 (last_offset h + 1) mod bitmap_size) with
            | Found offset bitmap_i bitmap_shift =>
                FoundIn header offset bitmap_i bitmap_shift
            | Wrapped => scan_stack fuel' s bitmap_size (next_page h)
            | r => Stuck r
            end
        end
  end.

(** The tail of [pop_bucket], from "modify the header bitmap" on. *)
Definition take_slot (bsize arena header offset bitmap_i bitmap_shift : Z) : M Z :=
  h <~ get_header header ;
  match bitmap h !! Z.to_nat bitmap_i with
  | None => λ _, Undefined
  | Some w =>
      put_header header
        (mk_header (hsize h) (next_page h) offset
           (<[Z.to_nat bitmap_i := Z.lor w (Z.shiftr c_64_MSB_High bitmap_shift)]> (bitmap h))) ;;
      let ptr := header + sizeof_page_header
                 + wrap32 (offset * wrap32 (bsize + c_Bucket_Metadata_Size)) in
      modify (store32 ptr (wrap32 (ptr - header))) ;;
      let ptr := ptr + 4 in
      modify (store8 ptr arena) ;;
      let ptr := ptr + 1 in
      ret ptr
  end.

Definition pop_bucket (fuel : nat) (bucket_i : nat) : M Z :=
  match c_MMAP_Chunks !! bucket_i, c_Bucket_Sizes !! bucket_i with
  | Some chunks, Some bsize =>
      let bitmap_size := bitmap_size_of chunks bsize in
      assert (bitmap_size <=? Z.of_nat BITMAP_LONGS * 64) ;;
      λ s,
        let arena := favorite s bucket_i in
        match scan_stack fuel s bitmap_size (stack_head s bucket_i arena) with
        | FoundIn header offset bitmap_i bitmap_shift =>
            take_slot bsize arena header offset bitmap_i bitmap_shift s
        | NoBucket =>
            (header <~ mmap_bucket bucket_i ;
             h <~ get_header header ;
             put_header header
               (mk_header (hsize h) (stack_head s bucket_i arena) (last_offset h) (bitmap h)) ;;
             modify (set_stack bucket_i arena header) ;;
             take_slot bsize arena header 0x0000 0x00 0x00) s
        | Stuck NoFuel => Diverges
        | Stuck _ => Undefined
        end
  | _, _ => λ _, Undefined
  end.

(** The slot index [push_bucket] computes from its arguments. *)
Definition push_offset (bsize header addr : Z) : Z :=
  wrap32 (wrap64 (wrap64 (addr - header) + sizeof_page_header))
  / wrap32 (bsize + c_Bucket_Metadata_Size).

Definition push_bucket (bucket_i : nat) (arena_i : Z) (header addr : Z) : M unit :=
  assert (bucket_i <? BUCKET_NUM)%nat ;;
  match c_Bucket_Sizes !! bucket_i with
  | Some bsize =>
      let offset := push_offset bsize header addr in
      let bitmap_i := wrap16 (offset / 64) in
      let bitmap_shift := wrap8 (offset mod 64) in
      h <~ get_header header ;
      match bitmap h !! Z.to_nat bitmap_i with
      | None => λ _, Undefined
      | Some w =>
          put_header header
            (mk_header (hsize h) (next_page h) (last_offset h)
               (<[Z.to_nat bitmap_i :=
                    Z.land w (wrap64 (Z.lnot (Z.shiftr c_64_MSB_High bitmap_shift)))]>
                  (bitmap h)))
      end
  | None => λ _, Undefined
  end.

(** ** The three entry points *)

(** [while (bytes > c_Bucket_Sizes[bucket_i] && bucket_i < BUCKET_NUM - 1) bucket_i++;]
    with [sizes] the part of the table from [bucket_i] on. *)
Fixpoint bucket_loop (sizes : list Z) (bytes : Z) (bucket_i : nat) : nat :=
  match sizes with
  | [] => bucket_i
  | bsize :: sizes' =>
      if (bsize <? bytes) && (bucket_i <? BUCKET_NUM - 1)%nat
      then bucket_loop sizes' bytes (S bucket_i)
      else bucket_i
  end.

(** The condition of the [assert] in [xmalloc]. *)
Definition bucket_fits (bytes : Z) (bucket_i : nat) : bool :=
  (bytes <=? default 0 (c_Bucket_Sizes !! bucket_i))
  && match bucket_i with
     | O => true
     | S prev_i => default 0 (c_Bucket_Sizes !! prev_i) <? bytes
     end.

Definition xmalloc (fuel : nat) (bytes : Z) : M Z :=
  if BUCKET_MAX <? bytes then mmap_non_bucket bytes
  else
    let bucket_i := bucket_loop c_Bucket_Sizes bytes 0 in
    assert (bucket_fits bytes bucket_i) ;;
    pop_bucket fuel bucket_i.

(** [while (bucket_i < BUCKET_NUM && c_Bucket_Sizes[bucket_i] != bucket_size) bucket_i++;] *)
Fixpoint size_loop (sizes : list Z) (bucket_size : Z) (bucket_i : nat) : nat :=
  match sizes with
  | [] => bucket_i
  | bsize :: sizes' =>
      if bsize =? bucket_size then bucket_i
      else size_loop sizes' bucket_size (S bucket_i)
  end.

Definition xfree (ptr : Z) : M unit :=
  if ptr =? 0 then ret tt
  else λ s,
    let flag := load8 s (ptr - 1) in
    if flag =? c_Non_Bucket_Flag then
      let ptr := ptr - c_Non_Bucket_Metadata_Size in
      let '(rc, s1) := munmap ptr (load64 s ptr) s in
      if negb (rc =? 0) then Exit (munmap_error ptr) s1 else Ret tt s1
    else if flag <? ARENA_NUM then
      let ptr := ptr - c_Bucket_Metadata_Size in
      let header := ptr - load32 s ptr in
      (h <~ get_header header ;
       let bucket_size := parse_header_size (hsize h) in
       let bucket_i := size_loop c_Bucket_Sizes bucket_size 0 in
       assert (bucket_i <? BUCKET_NUM)%nat ;;
       push_bucket bucket_i flag header ptr) s
    else Exit (arena_flag_error ptr flag) s.

(** The shared tail of both branches of [xrealloc]. *)
Definition move_block (fuel : nat) (prev bytes prev_bytes : Z) : M Z :=
  ptr <~ xmalloc fuel bytes ;
  modify (memcpy ptr prev (if bytes <? prev_bytes then bytes else prev_bytes)) ;;
  xfree prev ;;
  ret ptr.

Definition xrealloc (fuel : nat) (prev bytes : Z) : M Z :=
  if prev =? 0 then ret prev
  else λ s,
    let ptr := prev in
    let flag := load8 s (prev - 1) in
    if flag =? c_Non_Bucket_Flag then
      let ptr := ptr - c_Non_Bucket_Metadata_Size in
      let prev_bytes := load64 s ptr in
      if (prev_bytes <? bytes) || (bytes <? wrap64 (prev_bytes * 3) / 4)
      then move_block fuel prev bytes prev_bytes s
      else Ret prev s
    else if flag <? ARENA_NUM then
      let ptr := ptr - c_Bucket_Metadata_Size in
      let header := ptr - load32 s ptr in
      (h <~ get_header header ;
       let prev_bytes := parse_header_size (hsize h) in
       if (BUCKET_MAX <? bytes) || (prev_bytes <? bytes)
          || ((bytes <? wrap64 (prev_bytes * 2) / 3) && negb (prev_bytes =? BUCKET_MIN))
       then move_block fuel prev bytes prev_bytes
       else ret prev) s
    else Exit (realloc_flag_error ptr flag) s.

(** ** Constructor *)

Fixpoint for_each {A} (l : list A) (body : A → M unit) : M unit :=
  match l with
  | [] => ret tt
  | x :: l' => body x ;; for_each l' body
  end.

Definition initialize_mutexes : M unit :=
  assert ((default 0 (c_Bucket_Sizes !! 0%nat) =? BUCKET_MIN)
          && (default 0 (c_Bucket_Sizes !! (BUCKET_NUM - 1)%nat) =? BUCKET_MAX)) ;;
  for_each (seq 0 BUCKET_NUM) (λ bucket_index,
    for_each (seqZ 0 ARENA_NUM) (λ arena_index,
      header <~ mmap_bucket bucket_index ;
      h <~ get_header header ;
      (λ s, put_header header
              (mk_header (hsize h) (stack_head s bucket_index arena_index)
                         (last_offset h) (bitmap h)) s) ;;
      modify (set_stack bucket_index arena_index header))).

(** The process before its constructor runs: nothing mapped, the static
    arrays zeroed.  The kernel places the first mapping at [first_map]. *)
Definition first_map : Z := 0x10000000.

Definition boot : state := mk_state ∅ ∅ ∅ first_map ∅ ∅.

Definition state_of {A} (o : outcome A) : state :=
  match o with
  | Ret _ s | Exit _ s | Abort s => s
  | _ => boot
  end.

(** The state in which [main] starts. *)
Definition started : state := state_of (initialize_mutexes boot).

(** ** Destructor *)

(** The loop [while (header) { next = header->next_page; munmap(...); header = next; }]
    of [free_all_buckets] on one stack; the result counts the
    "munmap error on destruction" messages printed. *)
Fixpoint free_pages (fuel : nat) (mmap_size header : Z) (printed : nat) : M nat :=
  match fuel with
  | O => λ _, Diverges
  | S fuel' =>
      if header =? 0 then ret printed
      else
        h <~ get_header header ;
        let next := next_page h in
        λ s,
          let '(rc, s1) := munmap header mmap_size s in
          free_pages fuel' mmap_size next
            (if negb (rc =? 0) then S printed else printed) s1
  end.

(** The two [for] loops, adding up the messages of the bodies. *)
Fixpoint sum_each {A} (l : list A) (body : A → M nat) : M nat :=
  match l with
  | [] => ret O
  | x :: l' => n <~ body x ; m <~ sum_each l' body ; ret (n + m)%nat
  end.

Definition free_all_buckets (fuel : nat) : M nat :=
  sum_each (seq 0 BUCKET_NUM) (λ bucket_index,
    sum_each (seqZ 0 ARENA_NUM) (λ arena_index, λ s,
      match c_MMAP_Chunks !! bucket_index with
      | Some chunks =>
          free_pages fuel (chunks * ALLOC_CHUNK)
            (stack_head s bucket_index arena_index) O s
      | None => Undefined
      end)).

(** ** Reading the layout *)

(** The pointer [pop_bucket] returns for slot [offset] of the chunk at
    [header]: past the header, [offset] strides in, past the metadata. *)
Definition slot_pointer (header bsize offset : Z) : Z :=
  header + sizeof_page_header
  + wrap32 (offset * wrap32 (bsize + c_Bucket_Metadata_Size)) + 4 + 1.

(** Whether bit [i] of the bitmap is set: bit [i mod 64] of word [i / 64],
    counted from the most significant bit. *)
Definition slot_taken (h : page_header) (i : Z) : option bool :=
  match bitmap h !! Z.to_nat (i / 64) with
  | Some w => Some (negb (Z.land w (Z.shiftr c_64_MSB_High (i mod 64)) =? 0))
  | None => None
  end.

(** * Definitions for the statements *)

(** The value an outcome returns, if it returns. *)
Definition returned {A} (o : outcome A) : option A :=
  match o with
  | Ret a _ => Some a
  | _ => None
  end.

(** The decoder as the specification words it. *)
Definition decoder_formula (enc : Z) : Z :=
  let k := Z.land enc 0x7F in
  2 ^ k + (if Z.testbit enc 7 then 2 ^ (k - 1) else 0).

(** Bucket [c] is the first whose size is at least [n], and passes the
    assertion of [xmalloc]. *)
Definition smallest_fitting (n : Z) (c : nat) : bool :=
  match c_Bucket_Sizes !! c with
  | Some bsize =>
      (n <=? bsize) && forallb (λ bsize', bsize' <? n) (take c c_Bucket_Sizes)
      && bucket_fits n c
  | None => false
  end.

(** Allocate [bytes], copy [len] bytes from [prev], free [prev], return the
    new pointer. *)
Definition reallocate (fuel : nat) (prev bytes len : Z) : M Z :=
  ptr <~ xmalloc fuel bytes ;
  modify (memcpy ptr prev len) ;;
  xfree prev ;;
  ret ptr.

(** What [push_bucket] does to the header for the index [j] it computed. *)
Definition clear_bit (h : page_header) (j : Z) : page_header :=
  match bitmap h !! Z.to_nat (j / 64) with
  | Some w =>
      mk_header (hsize h) (next_page h) (last_offset h)
        (<[Z.to_nat (j / 64) :=
             Z.land w (wrap64 (Z.lnot (Z.shiftr c_64_MSB_High (j mod 64))))]> (bitmap h))
  | None => h
  end.

(** The pointer of slot [k] of the chunk at [header]: [slot_pointer]
    without its wrap-around. *)
Definition slot_address (header bsize k : Z) : Z :=
  header + sizeof_page_header + k * (bsize + 5) + 5.

(** The metadata [pop_bucket] wrote in front of the pointer of slot [k]:
    an arena index in the flag byte, and before it the distance of the
    slot from the start of the chunk. *)
Definition stamped (s : state) (header bsize k : Z) : Prop :=
  slot_address header bsize k ≠ 0
  ∧ load8 s (slot_address header bsize k - 1) < ARENA_NUM
  ∧ load32 s (slot_address header bsize k - 5) = slot_address header bsize k - 5 - header.

(** The number of strides in two headers, by which [push_bucket] misses. *)
Definition push_miss (bsize : Z) : Z := 2 * sizeof_page_header / (bsize + 5).

(** [k] calls of [xmalloc(bytes)] in a row; the pointers in the order of
    the calls. *)
Fixpoint xmalloc_times (k fuel : nat) (bytes : Z) : M (list Z) :=
  match k with
  | O => ret []
  | S k' =>
      p <~ xmalloc fuel bytes ;
      ps <~ xmalloc_times k' fuel bytes ;
      ret (p :: ps)
  end.

(** A test for a chunk on which the inner loop of [pop_bucket] cannot
    end.  The cursors of interest are those in range that are not between
    the start of the bitmap word of [last_offset] (excluded) and
    [last_offset] (included); the loop has to start on one of them and go
    from each of them on to another. *)
Definition in_orbit (h : page_header) (bitmap_size offset : Z) : bool :=
  (0 <=? offset) && (offset <? bitmap_size)
  && negb ((64 * (last_offset h / 64) <? offset) && (offset <=? last_offset h)).

(** From [offset], if it is such a cursor, one turn leads to such a cursor. *)
Definition keeps_scanning (h : page_header) (bitmap_size offset : Z) : bool :=
  negb (in_orbit h bitmap_size offset)
  || match scan_step h bitmap_size offset with
     | Next offset' => in_orbit h bitmap_size offset'
     | Leave _ => false
     end.

(** The test for one chunk, and for the chunk at the head of a stack. *)
Definition spins (h : page_header) (bitmap_size : Z) : bool :=
  forallb (keeps_scanning h bitmap_size) (seqZ 0 bitmap_size)
  && in_orbit h bitmap_size (wrap32 (last_offset h + 1) mod bitmap_size).

Definition pop_spins (s : state) (bucket_i : nat) : bool :=
  match c_MMAP_Chunks !! bucket_i, c_Bucket_Sizes !! bucket_i with
  | Some chunks, Some bsize =>
      let bitmap_size := bitmap_size_of chunks bsize in
      let header := stack_head s bucket_i (favorite s bucket_i) in
      (bitmap_size <=? Z.of_nat BITMAP_LONGS * 64) && negb (header =? 0)
      && match headers s !! header with
         | Some h => spins h bitmap_size
         | None => false
         end
  | _, _ => false
  end.

(** [stamped] as a test. *)
Definition stampedb (s : state) (header bsize k : Z) : bool :=
  negb (slot_address header bsize k =? 0)
  && (load8 s (slot_address header bsize k - 1) <? ARENA_NUM)
  && (load32 s (slot_address header bsize k - 5) =? slot_address header bsize k - 5 - header).

(** The run: from the start, 5453 allocations of 6144 bytes, which is the
    number of slots of a chunk of that bucket; then a free of the first
    pointer, and one more allocation.  The report holds the first and the
    seventh pointer, the pointer of the last allocation, and, for the chunk
    at the head of the stack afterwards, the test [pop_spins], its
    [last_offset] and the turn of the scan at cursor 0. *)
Definition wrap_run :=
  match xmalloc_times (Z.to_nat 5453) 64 6144 started with
  | Ret ps s1 =>
      match ps !! 0%nat, ps !! 6%nat with
      | Some p1, Some p7 =>
          match xfree p1 s1 with
          | Ret _ s2 =>
              match xmalloc 64 6144 s2 with
              | Ret q s3 =>
                  match headers s3 !! stack_head s3 19 (favorite s3 19) with
                  | Some h =>
                      Some (p1, p7, q, pop_spins s3 19, last_offset h, scan_step h 5453 0)
                  | None => None
                  end
              | _ => None
              end
          | _ => None
          end
      | _, _ => None
      end
  | _ => None
  end.


(** ** Definitions for the further properties *)

(** The codec agrees with the two shapes of size at exponent [k]. *)
Definition codec_check (k : Z) : bool :=
  match gen_header_size (2 ^ k), gen_header_size (3 * 2 ^ (k - 1)) with
  | Done e1, Done e2 =>
      (e1 =? k) && (parse_header_size e1 =? 2 ^ k)
      && (e2 =? Z.lor 0x80 k) && (parse_header_size e2 =? 3 * 2 ^ (k - 1))
  | _, _ => false
  end.

(** The size [xrealloc] reads for the block at [prev]: the 8 bytes before
    the flag for a large block, the decoded size of the chunk header for a
    bucket block. *)
Definition stored_size (s : state) (prev : Z) : option Z :=
  if load8 s (prev - 1) =? c_Non_Bucket_Flag then Some (load64 s (prev - 9))
  else if load8 s (prev - 1) <? ARENA_NUM then
    match headers s !! (prev - 5 - load32 s (prev - 5)) with
    | Some h => Some (parse_header_size (hsize h))
    | None => None
    end
  else None.

(** The pages of a stack: the headers reached from [header] by
    [next_page] up to the null link. *)
Inductive chain (s : state) : Z → list Z → Prop :=
  | chain_null : chain s 0 []
  | chain_page header h l :
      header ≠ 0 → headers s !! header = Some h → chain s (next_page h) l →
      chain s header (header :: l).

(** The pages of all stacks, in the order [free_all_buckets] visits them,
    for a map [pages] from bucket and arena to the pages of that stack. *)
Definition pages_of_bucket (pages : nat → Z → list Z) (arenas : list Z) (b : nat) : list Z :=
  concat (map (pages b) arenas).

Definition all_pages (pages : nat → Z → list Z) (buckets : list nat) (arenas : list Z) : list Z :=
  concat (map (pages_of_bucket pages arenas) buckets).

(** State [s'] is state [s] with the chunks at [gone] unmapped. *)
Definition unmapped (gone : list Z) (s s' : state) : Prop :=
  g_Bucket_Stacks s' = g_Bucket_Stacks s
  ∧ mem s' = mem s
  ∧ (∀ a, headers s' !! a = if decide (a ∈ gone) then None else headers s !! a)
  ∧ (∀ a, mappings s' !! a = if decide (a ∈ gone) then None else mappings s !! a).

(** The stack of bucket [b] and arena [a] is a chain, of page-aligned
    chunks, that the teardown loop walks with the fuel given. *)
Definition stack_ok (fuel : nat) (pages : nat → Z → list Z) (s : state) (b : nat) (a : Z) : Prop :=
  chain s (stack_head s b a) (pages b a)
  ∧ (length (pages b a) < fuel)%nat
  ∧ Forall (λ x, x mod SMALL_PAGE = 0) (pages b a).

(** A test for a stack of one page-aligned chunk. *)
Definition one_page_stack (s : state) (b : nat) (a : Z) : bool :=
  match headers s !! stack_head s b a with
  | Some h =>
      negb (stack_head s b a =? 0) && (next_page h =? 0)
      && (stack_head s b a mod SMALL_PAGE =? 0)
  | None => false
  end.

(** After the constructor has run from [s], stack [b], [a] of [s'] starts
    with a chunk that the constructor mapped: it is a live mapping of the
    bucket's chunk length, its header is at or above the
    kernel's next address in [s], a whole number of pages away from it,
    encodes the bucket's size, links to the head the stack had in [s], and
    its bitmap is clear. *)
Definition fresh_head (s s' : state) (b : nat) (a : Z) : Prop :=
  ∃ h bsize chunks, c_Bucket_Sizes !! b = Some bsize
    ∧ c_MMAP_Chunks !! b = Some chunks
    ∧ mappings s' !! stack_head s' b a = Some (chunks * ALLOC_CHUNK)
    ∧ next_map s ≤ stack_head s' b a < next_map s'
    ∧ (stack_head s' b a - next_map s) mod SMALL_PAGE = 0
    ∧ headers s' !! stack_head s' b a = Some h
    ∧ parse_header_size (hsize h) = bsize
    ∧ next_page h = stack_head s b a
    ∧ last_offset h = 0
    ∧ bitmap h = replicate BITMAP_LONGS 0.

(** The stacks in the order the constructor visits them. *)
Definition stacks_of (buckets : list nat) (arenas : list Z) : list (nat * Z) :=
  concat (map (λ b, map (pair b) arenas) buckets).

(** The constructor started in [s], has set up the stacks [done], and is
    now in [s1]. *)
Definition built (done : list (nat * Z)) (s s1 : state) : Prop :=
  0 < next_map s1 ∧ next_map s ≤ next_map s1
  ∧ (next_map s1 - next_map s) mod SMALL_PAGE = 0
  ∧ mem s1 = mem s
  ∧ (∀ p, p ∉ done → g_Bucket_Stacks s1 !! p = g_Bucket_Stacks s !! p)
  ∧ (∀ b a, (b, a) ∈ done → fresh_head s s1 b a)
  ∧ (∀ b a b' a', (b, a) ∈ done → (b', a') ∈ done →
       stack_head s1 b a = stack_head s1 b' a' → (b, a) = (b', a')).

(** * Properties *)

(** ** Tools *)

(** A boolean test that holds on every element of a range holds on every
    integer in it. *)
Lemma forall_range (P : Z → bool) (lo len : Z) :
  forallb P (seqZ lo len) = true → ∀ z, lo ≤ z < lo + len → P z = true.
Proof.
  intros Hall z Hz. rewrite forallb_forall in Hall. apply Hall.
  apply list_elem_of_In, elem_of_seqZ. exact Hz.
Qed.

Lemma wrap64_small z : 0 ≤ z < 2 ^ 64 → wrap64 z = z.
Proof. intros. unfold wrap64. apply Z.mod_small. assumption. Qed.

Lemma wrap32_small z : 0 ≤ z < 2 ^ 32 → wrap32 z = z.
Proof. intros. unfold wrap32. apply Z.mod_small. assumption. Qed.

Lemma returned_Ret {A} (o : outcome A) (a : A) :
  returned o = Some a → o = Ret a (state_of o).
Proof. destruct o; simpl; congruence. Qed.

(** ** Encoded sizes *)

Lemma gen_loop_total (fuel : nat) :
  ∀ size powertwo, 1 ≤ size < 2 ^ Z.of_nat fuel → is_Some (gen_loop fuel size powertwo).
Proof.
  induction fuel as [|fuel IH]; intros size powertwo Hsize.
  - simpl in Hsize. lia.
  - simpl. destruct (Z.eqb_spec size 1) as [->|Hne]; [eauto|].
    apply IH. rewrite Nat2Z.inj_succ, Z.pow_succ_r in Hsize by lia.
    split.
    + apply Z.div_le_lower_bound; lia.
    + apply Z.div_lt_upper_bound; lia.
Qed.

(** [gen_header_size] returns on every [size_t] that passes its assertion. *)
Lemma gen_header_size_returns (size : Z) :
  BUCKET_MIN ≤ size < 2 ^ 64 → ∃ enc, gen_header_size size = Done enc.
Proof.
  intros [Hmin Hmax]. unfold gen_header_size, gen_header_size_fuel.
  destruct (Z.ltb_spec size BUCKET_MIN) as [Hlt|_]; [lia|].
  destruct (gen_loop_total 64 size 0) as [powertwo Hp].
  { unfold BUCKET_MIN in Hmin. change (Z.of_nat 64) with 64. lia. }
  rewrite Hp. eauto.
Qed.

(** On every byte whose low seven bits are between 1 and 63 the decoder
    computes [2^k], plus [2^(k-1)] when bit 7 is set. *)
Lemma parse_header_size_formula (enc : Z) :
  0 ≤ enc < 2 ^ 8 → 1 ≤ Z.land enc 0x7F ≤ 63 →
  parse_header_size enc = decoder_formula enc.
Proof.
  intros Henc Hk.
  assert (Hall : forallb (λ e, ((Z.land e 0x7F <? 1) || (63 <? Z.land e 0x7F)
                               || (parse_header_size e =? decoder_formula e)))
                   (seqZ 0 256) = true) by (vm_compute; reflexivity).
  pose proof (forall_range _ _ _ Hall enc ltac:(lia)) as H. simpl in H.
  destruct (Z.ltb_spec (Z.land enc 0x7F) 1); [lia|].
  destruct (Z.ltb_spec 63 (Z.land enc 0x7F)); [lia|].
  simpl in H. apply Z.eqb_eq. exact H.
Qed.

(** C7: for each of the 21 bucket sizes, [gen_header_size] returns one
    byte, [parse_header_size] of that byte is the bucket size again, and
    the decoded value is 2^k, plus 2^(k-1) when the intermediate bit is
    set, with k the low seven bits of the byte. *)
Theorem header_size_roundtrip (c : nat) (bsize : Z) :
  c_Bucket_Sizes !! c = Some bsize →
  ∃ enc, gen_header_size bsize = Done enc
         ∧ 0 ≤ enc < 2 ^ 8
         ∧ parse_header_size enc = bsize
         ∧ parse_header_size enc
           = 2 ^ Z.land enc 0x7F + (if Z.testbit enc 7 then 2 ^ (Z.land enc 0x7F - 1) else 0).
Proof.
  intros Hc.
  do 21 (destruct c as [|c];
         [ injection Hc as <-; eexists; split; [vm_compute; reflexivity|];
           split; [split; [discriminate|reflexivity]|];
           split; vm_compute; reflexivity |]).
  discriminate Hc.
Qed.

Lemma header_size_roundtrip_witness :
  ∃ enc, gen_header_size 6144 = Done enc
         ∧ 0 ≤ enc < 2 ^ 8
         ∧ parse_header_size enc = 6144
         ∧ parse_header_size enc
           = 2 ^ Z.land enc 0x7F + (if Z.testbit enc 7 then 2 ^ (Z.land enc 0x7F - 1) else 0).
Proof. apply (header_size_roundtrip 19 6144). reflexivity. Defined.

(** ** Choice of the bucket in [xmalloc] *)

Ltac decide_cmp :=
  repeat match goal with
         | |- context [?a <? ?b] => destruct (Z.ltb_spec a b); try lia
         | |- context [?a <=? ?b] => destruct (Z.leb_spec a b); try lia
         end.

(** The loop stops at the first size that is not below the request. *)
Lemma bucket_loop_smallest (n : Z) :
  0 ≤ n ≤ BUCKET_MAX → smallest_fitting n (bucket_loop c_Bucket_Sizes n 0) = true.
Proof.
  intros Hn. unfold BUCKET_MAX in Hn.
  unfold c_Bucket_Sizes at 1. cbn [bucket_loop].
  repeat match goal with
         | |- context [(?a <? n) && ?b] =>
             let b' := eval vm_compute in b in change b with b';
             destruct (Z.ltb_spec a n); cbn [andb]
         end.
  all: unfold smallest_fitting, bucket_fits; cbn; decide_cmp; reflexivity.
Qed.

(** C6: a request of at most 8192 bytes pops from the bucket with the
    smallest size that is at least the request, so a request of exactly a
    bucket size uses that bucket and one byte more uses the next one; a
    request above 8192 bytes goes to [mmap_non_bucket]. *)
Theorem xmalloc_class_selection (fuel : nat) (n : Z) (s : state) :
  0 ≤ n →
  (n ≤ BUCKET_MAX →
     ∃ c bsize, bucket_loop c_Bucket_Sizes n 0 = c
       ∧ c_Bucket_Sizes !! c = Some bsize ∧ n ≤ bsize
       ∧ (∀ c' bsize', (c' < c)%nat → c_Bucket_Sizes !! c' = Some bsize' → bsize' < n)
       ∧ xmalloc fuel n s = pop_bucket fuel c s)
  ∧ (BUCKET_MAX < n → xmalloc fuel n s = mmap_non_bucket n s)
  ∧ (∀ c, c_Bucket_Sizes !! c = Some n → bucket_loop c_Bucket_Sizes n 0 = c)
  ∧ (∀ c, (c < 20)%nat → c_Bucket_Sizes !! c = Some (n - 1) →
          bucket_loop c_Bucket_Sizes n 0 = S c).
Proof.
  intros Hn0. split; [|split; [|split]].
  - intros Hn. pose proof (bucket_loop_smallest n (conj Hn0 Hn)) as Hs.
    unfold smallest_fitting in Hs.
    destruct (c_Bucket_Sizes !! bucket_loop c_Bucket_Sizes n 0) as [bsize|] eqn:Hb;
      [|discriminate].
    apply andb_true_iff in Hs as [Hs Hfits]. apply andb_true_iff in Hs as [Hle Hless].
    exists (bucket_loop c_Bucket_Sizes n 0), bsize.
    split; [reflexivity|]. split; [exact Hb|]. split; [lia|]. split.
    + intros c' bsize' Hlt Hc'. rewrite forallb_forall in Hless.
      assert (Hin : bsize' ∈ take (bucket_loop c_Bucket_Sizes n 0) c_Bucket_Sizes).
      { apply list_elem_of_lookup. exists c'. rewrite lookup_take_lt by exact Hlt. exact Hc'. }
      apply list_elem_of_In, Hless in Hin. lia.
    + unfold xmalloc. destruct (Z.ltb_spec BUCKET_MAX n); [lia|].
      cbv zeta. unfold bind, assert. rewrite Hfits. reflexivity.
  - intros Hn. unfold xmalloc. destruct (Z.ltb_spec BUCKET_MAX n); [reflexivity|lia].
  - intros c Hc.
    do 21 (destruct c as [|c]; [injection Hc as <-; vm_compute; reflexivity|]).
    discriminate Hc.
  - intros c Hlt Hc.
    do 20 (destruct c as [|c];
           [injection Hc as Hc; replace n with (n - 1 + 1) by lia; rewrite <- Hc;
            vm_compute; reflexivity|]).
    lia.
Qed.

Lemma xmalloc_class_selection_witness :
  (∃ c bsize, bucket_loop c_Bucket_Sizes 100 0 = c
     ∧ c_Bucket_Sizes !! c = Some bsize ∧ 100 ≤ bsize
     ∧ (∀ c' bsize', (c' < c)%nat → c_Bucket_Sizes !! c' = Some bsize' → bsize' < 100)
     ∧ xmalloc 8 100 started = pop_bucket 8 c started)
  ∧ xmalloc 8 8193 started = mmap_non_bucket 8193 started.
Proof.
  split.
  - apply (xmalloc_class_selection 8 100 started); [lia|unfold BUCKET_MAX; lia].
  - apply (xmalloc_class_selection 8 8193 started); [lia|unfold BUCKET_MAX; lia].
Defined.

(** ** Memory *)

Lemma read8_insert_eq (m : gmap Z Z) (a x : Z) : read8 (<[a := x]> m) a = x.
Proof. unfold read8. rewrite lookup_insert_eq. reflexivity. Qed.

Lemma read8_insert_ne (m : gmap Z Z) (a b x : Z) :
  a ≠ b → read8 (<[a := x]> m) b = read8 m b.
Proof. intros Hne. unfold read8. rewrite lookup_insert_ne by exact Hne. reflexivity. Qed.

Lemma read_le_insert_other (n : nat) :
  ∀ m a b x, b < a ∨ a + Z.of_nat n ≤ b → read_le n (<[b := x]> m) a = read_le n m a.
Proof.
  induction n as [|n IH]; intros m a b x Hb; [reflexivity|].
  simpl. rewrite read8_insert_ne by lia. rewrite IH by lia. reflexivity.
Qed.

(** Reading back the [n] bytes just stored gives the value, cut to [n] bytes. *)
Lemma read_le_store_le (n : nat) :
  ∀ a v m, read_le n (store_le n a v m) a = v mod 2 ^ (8 * Z.of_nat n).
Proof.
  induction n as [|n IH]; intros a v m.
  - simpl. rewrite Z.mod_1_r. reflexivity.
  - simpl read_le. simpl store_le. rewrite read8_insert_eq.
    rewrite read_le_insert_other by lia. rewrite IH.
    replace (8 * Z.of_nat (S n)) with (8 + 8 * Z.of_nat n) by lia.
    rewrite Z.pow_add_r by lia. symmetry. apply Z.rem_mul_r; lia.
Qed.

Lemma read_le_store_le_other (k : nat) :
  ∀ n m a b v, b + Z.of_nat k ≤ a ∨ a + Z.of_nat n ≤ b →
               read_le n (store_le k b v m) a = read_le n m a.
Proof.
  induction k as [|k IH]; intros n m a b v Hb; [reflexivity|].
  simpl. rewrite read_le_insert_other by lia. apply IH. lia.
Qed.

Lemma mem_store (n : nat) (a v : Z) (s : state) :
  mem (set_mem (store_le n a v) s) = store_le n a v (mem s).
Proof. reflexivity. Qed.

(** ** Large allocations *)

Lemma page_round (size : Z) :
  (size / SMALL_PAGE + (if size mod SMALL_PAGE =? 0 then 0x0 else 0x1)) * SMALL_PAGE
  = round_up_to_page size.
Proof.
  unfold round_up_to_page, SMALL_PAGE.
  destruct (Z.eqb_spec (size mod 4096) 0); Z.div_mod_to_equations; lia.
Qed.

Lemma round_up_to_page_bounds (size : Z) :
  size ≤ round_up_to_page size < size + SMALL_PAGE ∧ round_up_to_page size mod SMALL_PAGE = 0.
Proof.
  unfold round_up_to_page, SMALL_PAGE. split.
  - Z.div_mod_to_equations. lia.
  - apply Z.mod_mul. lia.
Qed.

(** What [mmap_non_bucket] does with a size whose rounding fits 64 bits. *)
Lemma mmap_non_bucket_layout (n : Z) (s : state) :
  BUCKET_MAX < n → n + 9 ≤ 2 ^ 64 - 4096 → next_map s ≠ 0 →
  ∃ s', mmap_non_bucket n s = Ret (next_map s + 9) s'
        ∧ mappings s' !! next_map s = Some (round_up_to_page (n + 9))
        ∧ load64 s' (next_map s) = round_up_to_page (n + 9)
        ∧ load8 s' (next_map s + 8) = c_Non_Bucket_Flag.
Proof.
  intros Hn Hfit Hmap. unfold BUCKET_MAX in Hn.
  pose proof (round_up_to_page_bounds (n + 9)) as [Hround _]. unfold SMALL_PAGE in Hround.
  unfold mmap_non_bucket, bind, assert.
  destruct (Z.ltb_spec BUCKET_MAX n) as [_|Hle]; [|unfold BUCKET_MAX in Hle; lia].
  unfold c_Non_Bucket_Metadata_Size. rewrite (wrap64_small (n + 9)) by lia.
  rewrite page_round. rewrite (wrap64_small (round_up_to_page (n + 9))) by lia.
  unfold mmap. destruct (Z.eqb_spec (next_map s) 0) as [H0|_]; [contradiction|].
  eexists. split; [replace (next_map s + 8 + 1) with (next_map s + 9) by lia; reflexivity|].
  split; [|split].
  - simpl. apply lookup_insert_eq.
  - unfold load64, load_le, store8, store64. rewrite !mem_store.
    rewrite read_le_store_le_other by (simpl; lia).
    rewrite read_le_store_le. apply Z.mod_small. change (8 * Z.of_nat 8) with 64. lia.
  - unfold load8, store8. rewrite mem_store. apply read8_insert_eq.
Qed.




(** ** Resize *)

Lemma move_block_reallocate (fuel : nat) (prev bytes prev_bytes : Z) :
  move_block fuel prev bytes prev_bytes = reallocate fuel prev bytes (Z.min bytes prev_bytes).
Proof.
  unfold move_block, reallocate.
  replace (if bytes <? prev_bytes then bytes else prev_bytes) with (Z.min bytes prev_bytes);
    [reflexivity|].
  destruct (Z.ltb_spec bytes prev_bytes); lia.
Qed.

Lemma bucket_size_bounds (C : Z) : C ∈ c_Bucket_Sizes → BUCKET_MIN ≤ C ≤ BUCKET_MAX.
Proof.
  intros Hin. unfold c_Bucket_Sizes in Hin. unfold BUCKET_MIN, BUCKET_MAX.
  repeat (apply elem_of_cons in Hin as [->|Hin]; [lia|]).
  apply elem_of_nil in Hin. contradiction.
Qed.





(** The branch of [xrealloc] for a pointer whose flag is 0xFF: the size it
    compares with and copies by is the 8-byte value before the flag. *)
Lemma xrealloc_large_cases (fuel : nat) (prev n : Z) (s : state) (P : Z) :
  prev ≠ 0 → load8 s (prev - 1) = c_Non_Bucket_Flag → load64 s (prev - 9) = P →
  0 ≤ P < 2 ^ 62 →
  xrealloc fuel prev n s =
    if (P <? n) || (n <? 3 * P / 4)
    then reallocate fuel prev n (Z.min n P) s
    else Ret prev s.
Proof.
  intros Hprev Hflag HP Hrange.
  unfold xrealloc. destruct (Z.eqb_spec prev 0) as [H0|_]; [contradiction|].
  cbv zeta. rewrite Hflag. rewrite Z.eqb_refl.
  unfold c_Non_Bucket_Metadata_Size. rewrite HP.
  rewrite (wrap64_small (P * 3)) by lia. replace (P * 3) with (3 * P) by lia.
  rewrite move_block_reallocate. reflexivity.
Qed.

(** C4, the code at a failing input: after [xmalloc(10000)] the mapping
    has P = 12288 bytes, 12279 of them after the header.  [xrealloc] to
    12285 bytes returns the old pointer and changes nothing, although
    12285 > P - 9; and [xrealloc] to 20000 bytes copies 12288 bytes, not
    P - 9. *)
Theorem xrealloc_large_compares_mapping_size :
  ∃ p s1, xmalloc 0 10000 started = Ret p s1
    ∧ load8 s1 (p - 1) = 0xFF
    ∧ load64 s1 (p - 9) = 12288
    ∧ 12288 - 9 < 12285
    ∧ xrealloc 0 p 12285 s1 = Ret p s1
    ∧ xrealloc 0 p 20000 s1 = reallocate 0 p 20000 12288 s1.
Proof.
  exists 2885681161, (state_of (xmalloc 0 10000 started)).
  split; [apply returned_Ret; vm_compute; reflexivity|].
  split; [vm_compute; reflexivity|].
  split; [vm_compute; reflexivity|].
  split; [lia|]. split.
  - rewrite (xrealloc_large_cases 0 2885681161 12285 _ 12288);
      [reflexivity | lia | vm_compute; reflexivity | vm_compute; reflexivity | lia].
  - rewrite (xrealloc_large_cases 0 2885681161 20000 _ 12288);
      [reflexivity | lia | vm_compute; reflexivity | vm_compute; reflexivity | lia].
Qed.

(** C10: [xrealloc] on a non-null pointer whose flag byte is neither 0xFF
    nor below 8 prints the diagnostic with the pointer and the flag and
    exits; the state at the exit is the state of the call, so nothing was
    allocated, copied or freed. *)
Theorem xrealloc_bad_flag_exits (fuel : nat) (prev n : Z) (s : state) :
  prev ≠ 0 → load8 s (prev - 1) ≠ 0xFF → ¬ load8 s (prev - 1) < 8 →
  xrealloc fuel prev n s = Exit (realloc_flag_error prev (load8 s (prev - 1))) s.
Proof.
  intros Hprev Hff Harena.
  unfold xrealloc. destruct (Z.eqb_spec prev 0) as [H0|_]; [contradiction|].
  cbv zeta. unfold c_Non_Bucket_Flag.
  destruct (Z.eqb_spec (load8 s (prev - 1)) 255) as [Heq|_]; [contradiction|].
  destruct (Z.ltb_spec (load8 s (prev - 1)) ARENA_NUM) as [Hlt|_]; [contradiction|].
  reflexivity.
Qed.

Lemma xrealloc_bad_flag_exits_witness :
  xrealloc 8 302009914 100 (store8 302009913 42 (state_of (xmalloc 8 16 started)))
  = Exit (realloc_flag_error 302009914
            (load8 (store8 302009913 42 (state_of (xmalloc 8 16 started))) (302009914 - 1)))
         (store8 302009913 42 (state_of (xmalloc 8 16 started))).
Proof.
  apply (xrealloc_bad_flag_exits 8 302009914 100).
  - lia.
  - vm_compute. discriminate.
  - vm_compute. discriminate.
Defined.

(** ** The cursor [last_offset] *)

Lemma bind_Ret {A B} (m : M A) (k : A → M B) (s s' : state) (b : B) :
  bind m k s = Ret b s' → ∃ a s1, m s = Ret a s1 ∧ k a s1 = Ret b s'.
Proof. unfold bind. destruct (m s) as [a s1| | | |]; try discriminate. eauto. Qed.







(** ** The bit cleared by a free *)

(** For the address of slot [i], [push_bucket] computes [i] plus the
    number of strides in two headers: the size of the header is added to
    the distance from the chunk start where it should be taken off. *)
Lemma push_offset_of_slot (bsize header i : Z) :
  0 < bsize < 2 ^ 31 → 0 ≤ i → i * (bsize + 5) + 2 * sizeof_page_header < 2 ^ 32 →
  push_offset bsize header (header + sizeof_page_header + i * (bsize + 5))
  = i + 2 * sizeof_page_header / (bsize + 5).
Proof.
  intros Hb Hi Hfit. unfold push_offset, c_Bucket_Metadata_Size.
  assert (Hs : sizeof_page_header = 20000) by reflexivity. rewrite Hs in *.
  replace (header + 20000 + i * (bsize + 5) - header) with (20000 + i * (bsize + 5)) by lia.
  assert (Hx : 0 ≤ i * (bsize + 5)) by (apply Z.mul_nonneg_nonneg; lia).
  rewrite (wrap64_small (20000 + _)) by lia.
  rewrite (wrap64_small (20000 + _ + 20000)) by lia.
  rewrite (wrap32_small (20000 + _ + 20000)) by lia.
  rewrite (wrap32_small (bsize + 5)) by lia.
  replace (20000 + i * (bsize + 5) + 20000) with (2 * 20000 + i * (bsize + 5)) by lia.
  rewrite Z.div_add by lia. lia.
Qed.

Lemma msb_shift (shift : Z) :
  0 ≤ shift < 64 → Z.shiftr c_64_MSB_High shift = 2 ^ (63 - shift).
Proof.
  intros Hs. change c_64_MSB_High with (2 ^ 63).
  rewrite Z.shiftr_div_pow2 by lia. rewrite <- Z.pow_sub_r by lia. reflexivity.
Qed.

(** Clearing bit [a] of a 64-bit word does not change bit [b]. *)
Lemma clear_other_bit (w a b : Z) :
  0 ≤ a < 64 → 0 ≤ b < 64 → a ≠ b →
  Z.land (Z.land w (wrap64 (Z.lnot (2 ^ a)))) (2 ^ b) = Z.land w (2 ^ b).
Proof.
  intros Ha Hb Hne. apply Z.bits_inj'. intros n Hn.
  rewrite !Z.land_spec. rewrite (Z.pow2_bits_eqb b) by lia.
  destruct (Z.eqb_spec b n) as [<-|_]; [|rewrite !andb_false_r; reflexivity].
  rewrite !andb_true_r. unfold wrap64.
  rewrite Z.mod_pow2_bits_low by lia. rewrite Z.lnot_spec by lia.
  rewrite Z.pow2_bits_eqb by lia.
  destruct (Z.eqb_spec a b) as [Heq|_]; [contradiction|].
  apply andb_true_r.
Qed.

Lemma clear_bit_fields (h : page_header) (j : Z) :
  hsize (clear_bit h j) = hsize h
  ∧ last_offset (clear_bit h j) = last_offset h
  ∧ length (bitmap (clear_bit h j)) = length (bitmap h).
Proof.
  unfold clear_bit. destruct (bitmap h !! Z.to_nat (j / 64)); [|auto].
  cbn. rewrite length_insert. auto.
Qed.

Lemma slot_taken_clear_bit (h : page_header) (i j : Z) :
  0 ≤ i → 0 ≤ j → i ≠ j → slot_taken (clear_bit h j) i = slot_taken h i.
Proof.
  intros Hi Hj Hne. unfold clear_bit.
  destruct (bitmap h !! Z.to_nat (j / 64)) as [w|] eqn:Hw; [|reflexivity].
  unfold slot_taken. cbn [bitmap].
  destruct (Z.eq_dec (i / 64) (j / 64)) as [Heq|Hdiff].
  - rewrite Heq, Hw. rewrite list_lookup_insert_eq by (eapply lookup_lt_Some; exact Hw).
    rewrite !msb_shift by (Z.div_mod_to_equations; lia).
    rewrite clear_other_bit; [reflexivity| | |]; Z.div_mod_to_equations; lia.
  - rewrite list_lookup_insert_ne; [reflexivity|].
    intros Hnat. apply Hdiff. symmetry. apply Z2Nat.inj in Hnat;
      [exact Hnat| |]; Z.div_mod_to_equations; lia.
Qed.

Lemma push_bucket_clears (bucket_i : nat) (bsize arena header addr : Z)
      (s : state) (h : page_header) :
  c_Bucket_Sizes !! bucket_i = Some bsize →
  headers s !! header = Some h →
  0 ≤ push_offset bsize header addr < 64 * Z.of_nat (length (bitmap h)) →
  push_offset bsize header addr < 2 ^ 22 →
  push_bucket bucket_i arena header addr s
  = Ret tt (set_headers <[header := clear_bit h (push_offset bsize header addr)]> s).
Proof.
  intros Hsize Hh Hj Hj'. unfold push_bucket, bind at 1, assert.
  assert (Hlt : (bucket_i < BUCKET_NUM)%nat).
  { apply lookup_lt_Some in Hsize. exact Hsize. }
  destruct (Nat.ltb_spec bucket_i BUCKET_NUM) as [_|Hge]; [|lia].
  rewrite Hsize. cbv zeta.
  set (j := push_offset bsize header addr) in *.
  unfold bind, get_header. rewrite Hh.
  assert (Hword : wrap16 (j / 64) = j / 64).
  { unfold wrap16. apply Z.mod_small. Z.div_mod_to_equations. lia. }
  assert (Hshift : wrap8 (j mod 64) = j mod 64).
  { unfold wrap8. apply Z.mod_small. Z.div_mod_to_equations. lia. }
  rewrite Hword, Hshift. unfold clear_bit.
  destruct (bitmap h !! Z.to_nat (j / 64)) as [w|] eqn:Hw; [reflexivity|].
  apply lookup_ge_None in Hw. exfalso.
  assert (j / 64 < Z.of_nat (length (bitmap h))) by (Z.div_mod_to_equations; lia).
  lia.
Qed.

Lemma size_loop_index (c : nat) (bsize : Z) :
  c_Bucket_Sizes !! c = Some bsize → size_loop c_Bucket_Sizes bsize 0 = c ∧ (c < BUCKET_NUM)%nat.
Proof.
  intros Hc.
  do 21 (destruct c as [|c];
         [injection Hc as <-; split; [reflexivity|unfold BUCKET_NUM; lia]|]).
  discriminate Hc.
Qed.

(** [xfree] of the pointer of slot [k] clears bit [k + push_miss bsize]. *)
Lemma xfree_slot (s : state) (header k bsize : Z) (c : nat) (h : page_header) :
  stamped s header bsize k →
  headers s !! header = Some h →
  c_Bucket_Sizes !! c = Some bsize → parse_header_size (hsize h) = bsize →
  0 ≤ k < 64 * Z.of_nat BITMAP_LONGS →
  k + push_miss bsize < 64 * Z.of_nat (length (bitmap h)) →
  xfree (slot_address header bsize k) s
  = Ret tt (set_headers <[header := clear_bit h (k + push_miss bsize)]> s).
Proof.
  intros (Hp & Hflag & Hoff) Hh Hc Hdec Hk Hlen.
  assert (Hb : BUCKET_MIN ≤ bsize ≤ BUCKET_MAX).
  { apply bucket_size_bounds. apply list_elem_of_lookup. eauto. }
  unfold BUCKET_MIN, BUCKET_MAX in Hb. unfold ARENA_NUM in Hflag.
  change (Z.of_nat BITMAP_LONGS) with 2497 in Hk.
  destruct (size_loop_index c bsize Hc) as [Hloop Hlt].
  set (p := slot_address header bsize k) in *.
  unfold xfree. destruct (Z.eqb_spec p 0) as [H0|_]; [contradiction|].
  cbv zeta. unfold c_Non_Bucket_Flag, c_Bucket_Metadata_Size.
  destruct (Z.eqb_spec (load8 s (p - 1)) 255) as [Hff|_]; [lia|].
  destruct (Z.ltb_spec (load8 s (p - 1)) ARENA_NUM) as [_|Hge];
    [|unfold ARENA_NUM in Hge; lia].
  rewrite Hoff. replace (p - 5 - (p - 5 - header)) with header by lia.
  unfold bind at 1, get_header. rewrite Hh, Hdec, Hloop.
  unfold bind at 1, assert. destruct (Nat.ltb_spec c BUCKET_NUM) as [_|Hge]; [|lia].
  assert (Hprod : 0 ≤ k * (bsize + 5) ≤ 159807 * 8197).
  { split; [apply Z.mul_nonneg_nonneg; lia|apply Z.mul_le_mono_nonneg; lia]. }
  assert (Hpush : push_offset bsize header (p - 5) = k + push_miss bsize).
  { unfold p, slot_address, push_miss.
    replace (header + sizeof_page_header + k * (bsize + 5) + 5 - 5)
      with (header + sizeof_page_header + k * (bsize + 5)) by lia.
    apply push_offset_of_slot; [lia|lia|]. change sizeof_page_header with 20000. lia. }
  assert (Hdelta : 4 ≤ push_miss bsize ≤ 40000).
  { unfold push_miss. change sizeof_page_header with 20000.
    split; [apply Z.div_le_lower_bound; lia|apply Z.div_le_upper_bound; lia]. }
  rewrite <- Hpush.
  apply push_bucket_clears; [exact Hc|exact Hh|rewrite Hpush; lia|rewrite Hpush; lia].
Qed.

(** So the bit of slot [k] itself is as it was before, and so is every bit
    below [push_miss bsize], whatever slot is freed. *)
Lemma xfree_keeps_bit (s : state) (header k i bsize : Z) (c : nat) (h : page_header) :
  stamped s header bsize k →
  headers s !! header = Some h →
  c_Bucket_Sizes !! c = Some bsize → parse_header_size (hsize h) = bsize →
  0 ≤ k < 64 * Z.of_nat BITMAP_LONGS →
  k + push_miss bsize < 64 * Z.of_nat (length (bitmap h)) →
  0 ≤ i → i = k ∨ i < push_miss bsize →
  ∃ s' h', xfree (slot_address header bsize k) s = Ret tt s'
           ∧ headers s' !! header = Some h'
           ∧ slot_taken h' i = slot_taken h i.
Proof.
  intros Hst Hh Hc Hdec Hk Hlen Hi Hik.
  assert (Hb : BUCKET_MIN ≤ bsize ≤ BUCKET_MAX).
  { apply bucket_size_bounds. apply list_elem_of_lookup. eauto. }
  unfold BUCKET_MIN, BUCKET_MAX in Hb.
  assert (Hdelta : 4 ≤ push_miss bsize).
  { unfold push_miss. change sizeof_page_header with 20000.
    apply Z.div_le_lower_bound; lia. }
  eexists _, _. split; [apply (xfree_slot s header k bsize c h); assumption|].
  split; [simpl; apply lookup_insert_eq|].
  apply slot_taken_clear_bit; lia.
Qed.

Lemma stamped_set_headers (f : gmap Z page_header → gmap Z page_header) (s : state)
      (header bsize k : Z) :
  stamped s header bsize k → stamped (set_headers f s) header bsize k.
Proof. intros H. exact H. Qed.

(** Freeing the slots [ks] of one chunk, in any order, leaves every bit
    below [push_miss bsize] as it was. *)
Lemma free_all_keeps_low_bits (header bsize : Z) (c : nat) (ks : list Z) :
  c_Bucket_Sizes !! c = Some bsize →
  ∀ (s : state) (h : page_header),
    headers s !! header = Some h → parse_header_size (hsize h) = bsize →
    Forall (λ k, stamped s header bsize k
                 ∧ 0 ≤ k < 64 * Z.of_nat BITMAP_LONGS
                 ∧ k + push_miss bsize < 64 * Z.of_nat (length (bitmap h))) ks →
    ∃ s' h', for_each (map (slot_address header bsize) ks) xfree s = Ret tt s'
             ∧ headers s' !! header = Some h'
             ∧ ∀ i, 0 ≤ i < push_miss bsize → slot_taken h' i = slot_taken h i.
Proof.
  intros Hc. induction ks as [|k ks IH]; intros s h Hh Hdec Hall.
  - exists s, h. split; [reflexivity|]. split; [exact Hh|]. reflexivity.
  - apply Forall_cons in Hall as [(Hst & Hk & Hlen) Hall].
    pose proof (xfree_slot s header k bsize c h Hst Hh Hc Hdec Hk Hlen) as Hfree.
    pose proof (clear_bit_fields h (k + push_miss bsize)) as (Hsize & _ & Hlength).
    destruct (IH (set_headers <[header := clear_bit h (k + push_miss bsize)]> s)
                 (clear_bit h (k + push_miss bsize))) as (s' & h' & Hrest & Hh' & Hbits).
    + simpl. apply lookup_insert_eq.
    + rewrite Hsize. exact Hdec.
    + eapply Forall_impl; [exact Hall|]. intros k' (Hst' & Hk' & Hlen').
      split; [apply stamped_set_headers; exact Hst'|]. split; [exact Hk'|].
      rewrite Hlength. exact Hlen'.
    + exists s', h'. split; [|split; [exact Hh'|]].
      * cbn [map for_each]. unfold bind. rewrite Hfree. exact Hrest.
      * intros i Hi. rewrite (Hbits i Hi). apply slot_taken_clear_bit; lia.
Qed.

Lemma stampedb_true (s : state) (header bsize k : Z) :
  stampedb s header bsize k = true → stamped s header bsize k.
Proof.
  unfold stampedb, stamped. intros H.
  apply andb_true_iff in H as [H Hoff]. apply andb_true_iff in H as [Hp Hflag].
  split; [|split].
  - intros H0. rewrite H0 in Hp. discriminate.
  - apply Z.ltb_lt. exact Hflag.
  - apply Z.eqb_eq. exact Hoff.
Qed.

(** C1, the code at failing inputs.  [xmalloc(8)] at start returns slot 1
    of the first chunk for 8 bytes, which is the index the claim computes
    from the pointer; [xfree] of that pointer computes index 3077, and the
    bit of slot 1 is still set afterwards.  And after three allocations
    of 8 bytes, which set the bits of slots 1, 2 and 3, freeing the three
    pointers, in any order, leaves the three bits set. *)
Theorem xfree_clears_another_bit :
  (∃ p s1 s2 header h,
     xmalloc 8 8 started = Ret p s1
     ∧ xfree p s1 = Ret tt s2
     ∧ header = p - 5 - load32 s1 (p - 5)
     ∧ (p - 5 - header - sizeof_page_header) / (8 + 5) = 1
     ∧ push_offset 8 header (p - 5) = 3077
     ∧ headers s2 !! header = Some h
     ∧ slot_taken h 1 = Some true)
  ∧ (∃ ps s1 header h1,
       xmalloc_times 3 8 8 started = Ret ps s1
       ∧ ps = map (slot_address header 8) [1; 2; 3]
       ∧ headers s1 !! header = Some h1
       ∧ (∀ i, 1 ≤ i ≤ 3 → slot_taken h1 i = Some true)
       ∧ ∀ ps', ps' ≡ₚ ps →
           ∃ s2 h2, for_each ps' xfree s1 = Ret tt s2
                    ∧ headers s2 !! header = Some h2
                    ∧ ∀ i, 1 ≤ i ≤ 3 → slot_taken h2 i = Some true).
Proof.
  split.
  - exists 268455474, (state_of (xmalloc 8 8 started)).
    exists (state_of (xfree 268455474 (state_of (xmalloc 8 8 started)))).
    exists 268435456.
    exists (mk_header 3 0 1 (<[0%nat := 0x4000000000000000]> (replicate BITMAP_LONGS 0))).
    split; [apply returned_Ret; vm_compute; reflexivity|].
    split; [apply (returned_Ret _ tt); vm_compute; reflexivity|].
    repeat split; vm_compute; reflexivity.
  - set (s1 := state_of (xmalloc_times 3 8 8 started)).
    set (h1 := mk_header 3 0 3 (<[0%nat := 0x7000000000000000]> (replicate BITMAP_LONGS 0))).
    assert (Hh1 : headers s1 !! 268435456 = Some h1) by (vm_compute; reflexivity).
    assert (Hbits : ∀ i, 1 ≤ i ≤ 3 → slot_taken h1 i = Some true).
    { intros i Hi. assert (i = 1 ∨ i = 2 ∨ i = 3) as [->|[->| ->]] by lia; reflexivity. }
    exists (map (slot_address 268435456 8) [1; 2; 3]), s1, 268435456, h1.
    split; [unfold s1; apply returned_Ret; vm_compute; reflexivity|]. split; [reflexivity|].
    split; [exact Hh1|]. split; [exact Hbits|].
    intros ps' Hperm. apply Permutation_map_inv in Hperm as (ks & -> & Hks).
    destruct (free_all_keeps_low_bits 268435456 8 0 ks eq_refl s1 h1 Hh1)
      as (s2 & h2 & Hfree & Hh2 & Hlow).
    { vm_compute. reflexivity. }
    { eapply Permutation_Forall; [exact Hks|].
      repeat (apply Forall_cons; split;
              [split; [apply stampedb_true; vm_compute; reflexivity
                      |split; vm_compute; repeat split; discriminate]|]).
      apply Forall_nil. constructor. }
    exists s2, h2. split; [exact Hfree|]. split; [exact Hh2|].
    intros i Hi. rewrite (Hlow i) by (change (push_miss 8) with 3076; lia).
    apply Hbits. exact Hi.
Qed.

(** ** A chunk that fills up *)

Lemma in_orbit_range (h : page_header) (bitmap_size offset : Z) :
  in_orbit h bitmap_size offset = true → 0 ≤ offset < bitmap_size.
Proof.
  unfold in_orbit. intros H.
  apply andb_true_iff in H as [H _]. apply andb_true_iff in H as [Hlo Hhi].
  split; [apply Z.leb_le; exact Hlo | apply Z.ltb_lt; exact Hhi].
Qed.

Lemma spins_sound (h : page_header) (bitmap_size : Z) :
  spins h bitmap_size = true →
  ∀ fuel offset, in_orbit h bitmap_size offset = true →
                 scan_chunk fuel h bitmap_size offset = NoFuel.
Proof.
  unfold spins. intros Hspins. apply andb_true_iff in Hspins as [Hall _].
  induction fuel as [|fuel IH]; intros offset Horbit; [reflexivity|].
  pose proof (in_orbit_range _ _ _ Horbit) as Hrange.
  pose proof (forall_range _ _ _ Hall offset ltac:(lia)) as Hstep.
  unfold keeps_scanning in Hstep. rewrite Horbit in Hstep. simpl in Hstep.
  simpl. destruct (scan_step h bitmap_size offset) as [offset'|r]; [|discriminate].
  apply IH. exact Hstep.
Qed.

Lemma pop_spins_sound (s : state) (bucket_i : nat) :
  pop_spins s bucket_i = true → ∀ fuel, pop_bucket fuel bucket_i s = Diverges.
Proof.
  unfold pop_spins, pop_bucket. intros Hspins fuel.
  destruct (c_MMAP_Chunks !! bucket_i) as [chunks|]; [|discriminate].
  destruct (c_Bucket_Sizes !! bucket_i) as [bsize|]; [|discriminate].
  cbv zeta in Hspins.
  apply andb_true_iff in Hspins as [Hpre Hspins].
  apply andb_true_iff in Hpre as [Hassert Hhead].
  unfold bind, assert. rewrite Hassert.
  destruct fuel as [|fuel]; [reflexivity|].
  cbn [scan_stack]. destruct (_ =? 0); [discriminate|].
  destruct (headers s !! _) as [h|]; [|discriminate].
  assert (Hstart := Hspins). unfold spins in Hstart.
  apply andb_true_iff in Hstart as [_ Hstart].
  rewrite (spins_sound h _ Hspins (S fuel) _ Hstart). reflexivity.
Qed.

Lemma wrap_run_value :
  wrap_run = Some (2080400938, 2080437832, 2080437832, true, 7, Next 64).
Proof. vm_compute. reflexivity. Qed.

Lemma wrap_trace :
  ∃ ps s1 s2 s3 h,
    xmalloc_times (Z.to_nat 5453) 64 6144 started = Ret ps s1
    ∧ ps !! 0%nat = Some 2080400938
    ∧ ps !! 6%nat = Some 2080437832
    ∧ xfree 2080400938 s1 = Ret tt s2
    ∧ xmalloc 64 6144 s2 = Ret 2080437832 s3
    ∧ headers s3 !! stack_head s3 19 (favorite s3 19) = Some h
    ∧ pop_spins s3 19 = true
    ∧ last_offset h = 7
    ∧ scan_step h 5453 0 = Next 64.
Proof.
  pose proof wrap_run_value as H. unfold wrap_run in H.
  destruct (xmalloc_times (Z.to_nat 5453) 64 6144 started) as [ps s1| | | |] eqn:Hps;
    try discriminate H.
  destruct (ps !! 0%nat) as [p1|] eqn:Hp1; [|discriminate H].
  destruct (ps !! 6%nat) as [p7|] eqn:Hp7; [|discriminate H].
  destruct (xfree p1 s1) as [[] s2| | | |] eqn:Hfree; try discriminate H.
  destruct (xmalloc 64 6144 s2) as [q s3| | | |] eqn:Hq; try discriminate H.
  destruct (headers s3 !! stack_head s3 19 (favorite s3 19)) as [h|] eqn:Hh;
    [|discriminate H].
  injection H as -> -> -> Hspins Hlast Hstep.
  exists ps, s1, s2, s3, h.
  split; [reflexivity|]. split; [exact Hp1|].
  split; [exact Hp7|]. split; [exact Hfree|]. split; [exact Hq|]. split; [exact Hh|].
  split; [exact Hspins|]. split; [exact Hlast|exact Hstep].
Qed.

(** C2, the code at a failing input: after 5453 allocations of 6144 bytes
    and a free of the first pointer, the next allocation returns the
    seventh pointer, which was never freed. *)
Theorem xmalloc_returns_live_pointer :
  ∃ ps s1 p1 p7 s2 s3,
    xmalloc_times (Z.to_nat 5453) 64 6144 started = Ret ps s1
    ∧ ps !! 0%nat = Some p1
    ∧ ps !! 6%nat = Some p7
    ∧ p1 ≠ p7
    ∧ xfree p1 s1 = Ret tt s2
    ∧ xmalloc 64 6144 s2 = Ret p7 s3.
Proof.
  destruct wrap_trace as (ps & s1 & s2 & s3 & h & Hps & Hp1 & Hp7 & Hfree & Hq & _).
  exists ps, s1, 2080400938, 2080437832, s2, s3.
  split; [exact Hps|]. split; [exact Hp1|]. split; [exact Hp7|].
  split; [discriminate|]. split; [exact Hfree|exact Hq].
Qed.

Lemma xmalloc_6144 (fuel : nat) (s : state) :
  xmalloc fuel 6144 s = pop_bucket fuel 19 s.
Proof. reflexivity. Qed.

(** C3, the code at a failing input: in the state after the run above the
    chunk at the head of the stack has all its 5453 slots taken and
    [last_offset] 7.  At cursor 0 the scan finds the first word all ones
    and goes to cursor 64, past 7, by an addition that is not reduced
    modulo the number of slots; from there [xmalloc(6144)] never
    returns, whatever the fuel. *)
Theorem pop_skip_passes_last_offset :
  ∃ ps s1 p1 s2 q s3 h,
    xmalloc_times (Z.to_nat 5453) 64 6144 started = Ret ps s1
    ∧ ps !! 0%nat = Some p1
    ∧ xfree p1 s1 = Ret tt s2
    ∧ xmalloc 64 6144 s2 = Ret q s3
    ∧ headers s3 !! stack_head s3 19 (favorite s3 19) = Some h
    ∧ bitmap_size_of 16 6144 = 5453
    ∧ last_offset h = 7
    ∧ scan_step h 5453 0 = Next 64
    ∧ ∀ fuel, xmalloc fuel 6144 s3 = Diverges.
Proof.
  destruct wrap_trace
    as (ps & s1 & s2 & s3 & h & Hps & Hp1 & _ & Hfree & Hq & Hh & Hspins & Hlast & Hstep).
  exists ps, s1, 2080400938, s2, 2080437832, s3, h.
  split; [exact Hps|]. split; [exact Hp1|]. split; [exact Hfree|].
  split; [exact Hq|]. split; [exact Hh|]. split; [reflexivity|].
  split; [exact Hlast|]. split; [exact Hstep|].
  intros fuel. rewrite xmalloc_6144. apply pop_spins_sound. exact Hspins.
Qed.

(** * Further properties *)

(** ** The codec on every size of either shape *)

(** X1: for every k from 3 to 63, the size 2^k is encoded as the byte k
    and the size 3 * 2^(k-1) as the byte 0x80 | k, and both bytes decode
    to the size again. *)
Theorem codec_roundtrip_shapes (k : Z) :
  3 ≤ k ≤ 63 →
  gen_header_size (2 ^ k) = Done k
  ∧ parse_header_size k = 2 ^ k
  ∧ gen_header_size (3 * 2 ^ (k - 1)) = Done (Z.lor 0x80 k)
  ∧ parse_header_size (Z.lor 0x80 k) = 3 * 2 ^ (k - 1).
Proof.
  intros Hk.
  assert (Hall : forallb codec_check (seqZ 3 61) = true) by (vm_compute; reflexivity).
  pose proof (forall_range _ _ _ Hall k ltac:(lia)) as H. unfold codec_check in H.
  remember (gen_header_size (2 ^ k)) as g1 eqn:E1. clear E1.
  remember (gen_header_size (3 * 2 ^ (k - 1))) as g2 eqn:E2. clear E2.
  destruct g1 as [e1| |]; try discriminate H.
  destruct g2 as [e2| |]; try discriminate H.
  apply andb_true_iff in H as [H H4]. apply andb_true_iff in H as [H H3].
  apply andb_true_iff in H as [H1 H2].
  apply Z.eqb_eq in H1, H2, H3, H4. subst e1 e2.
  split; [reflexivity|]. split; [exact H2|]. split; [reflexivity|exact H4].
Qed.

Lemma codec_roundtrip_shapes_witness :
  gen_header_size (2 ^ 40) = Done 40
  ∧ parse_header_size 40 = 2 ^ 40
  ∧ gen_header_size (3 * 2 ^ (40 - 1)) = Done (Z.lor 0x80 40)
  ∧ parse_header_size (Z.lor 0x80 40) = 3 * 2 ^ (40 - 1).
Proof. apply (codec_roundtrip_shapes 40). lia. Defined.

(** ** The slots of a chunk *)

(** X2: for each bucket, the number of slots [pop_bucket] computes is
    positive and passes its assertion, the slots end inside the mapping,
    and for every slot index below that number the pointer computation
    does not wrap and the payload ends inside the mapping. *)
Theorem slots_fit_chunk (bucket_i : nat) (chunks bsize header offset : Z) :
  c_MMAP_Chunks !! bucket_i = Some chunks →
  c_Bucket_Sizes !! bucket_i = Some bsize →
  0 ≤ offset < bitmap_size_of chunks bsize →
  0 < bitmap_size_of chunks bsize ≤ Z.of_nat BITMAP_LONGS * 64
  ∧ sizeof_page_header + bitmap_size_of chunks bsize * (bsize + c_Bucket_Metadata_Size)
    ≤ chunks * ALLOC_CHUNK
  ∧ slot_pointer header bsize offset = slot_address header bsize offset
  ∧ header + sizeof_page_header ≤ slot_pointer header bsize offset - 5
  ∧ slot_pointer header bsize offset + bsize ≤ header + chunks * ALLOC_CHUNK.
Proof.
  intros Hchunks Hsize.
  do 21 (destruct bucket_i as [|bucket_i];
         [ injection Hchunks as <-; injection Hsize as <-;
           match goal with
           | |- context [bitmap_size_of ?c ?b] =>
               let n := eval vm_compute in (bitmap_size_of c b) in
               change (bitmap_size_of c b) with n
           end;
           intros Hoff; unfold slot_pointer, slot_address, c_Bucket_Metadata_Size;
           change sizeof_page_header with 20000; change ALLOC_CHUNK with 2097152;
           change (Z.of_nat BITMAP_LONGS) with 2497;
           match goal with
           | |- context [wrap32 (?b + 5)] =>
               let n := eval vm_compute in (wrap32 (b + 5)) in
               change (wrap32 (b + 5)) with n
           end;
           rewrite wrap32_small by lia; lia |]).
  discriminate Hsize.
Qed.

Lemma slots_fit_chunk_witness :
  0 < bitmap_size_of 16 6144 ≤ Z.of_nat BITMAP_LONGS * 64
  ∧ sizeof_page_header + bitmap_size_of 16 6144 * (6144 + c_Bucket_Metadata_Size)
    ≤ 16 * ALLOC_CHUNK
  ∧ slot_pointer 2080374784 6144 5452 = slot_address 2080374784 6144 5452
  ∧ 2080374784 + sizeof_page_header ≤ slot_pointer 2080374784 6144 5452 - 5
  ∧ slot_pointer 2080374784 6144 5452 + 6144 ≤ 2080374784 + 16 * ALLOC_CHUNK.
Proof.
  apply (slots_fit_chunk 19 16 6144 2080374784 5452); [reflexivity|reflexivity|].
  vm_compute. split; [discriminate|reflexivity].
Defined.

(** ** What the scan finds *)

Lemma scan_step_Found (h : page_header) (bitmap_size offset o i sh : Z) :
  scan_step h bitmap_size offset = Leave (Found o i sh) →
  o = offset ∧ o ≠ last_offset h
  ∧ i = wrap16 (o / 64) ∧ sh = wrap8 (o mod 64)
  ∧ ∃ w, bitmap h !! Z.to_nat i = Some w ∧ Z.land w (Z.shiftr c_64_MSB_High sh) = 0.
Proof.
  unfold scan_step. destruct (Z.eqb_spec offset (last_offset h)) as [|Hne]; [discriminate|].
  destruct (bitmap h !! Z.to_nat (wrap16 (offset / 64))) as [w|] eqn:Hw; [|discriminate].
  destruct (_ && _); [discriminate|].
  destruct (Z.eqb_spec (Z.land w (Z.shiftr c_64_MSB_High (wrap8 (offset mod 64)))) 0)
    as [Hfree|]; [|discriminate].
  intros H. injection H as <- <- <-. eauto 10.
Qed.

Lemma scan_step_Next (h : page_header) (bitmap_size offset offset' : Z) :
  0 < bitmap_size ≤ 64 * Z.of_nat (length (bitmap h)) →
  Z.of_nat (length (bitmap h)) < 2 ^ 16 →
  0 ≤ offset < 64 * (Z.of_nat (length (bitmap h)) + 1) →
  scan_step h bitmap_size offset = Next offset' →
  0 ≤ offset' < 64 * (Z.of_nat (length (bitmap h)) + 1).
Proof.
  intros HN Hlen Hoff. unfold scan_step.
  destruct (offset =? last_offset h); [discriminate|].
  assert (Hword : wrap16 (offset / 64) = offset / 64).
  { unfold wrap16. apply Z.mod_small. Z.div_mod_to_equations. lia. }
  rewrite Hword.
  destruct (bitmap h !! Z.to_nat (offset / 64)) as [w|] eqn:Hw; [|discriminate].
  apply lookup_lt_Some in Hw.
  assert (offset / 64 < Z.of_nat (length (bitmap h))) by lia.
  destruct (_ && _).
  - intros H'. injection H' as <-. rewrite wrap32_small; Z.div_mod_to_equations; lia.
  - destruct (_ =? 0); [discriminate|]. intros H'. injection H' as <-.
    pose proof (Z.mod_pos_bound (wrap32 (offset + 1)) bitmap_size ltac:(lia)). lia.
Qed.

Lemma scan_chunk_Found (fuel : nat) (h : page_header) (bitmap_size : Z) :
  0 < bitmap_size ≤ 64 * Z.of_nat (length (bitmap h)) →
  Z.of_nat (length (bitmap h)) < 2 ^ 16 →
  ∀ start o i sh,
    0 ≤ start < 64 * (Z.of_nat (length (bitmap h)) + 1) →
    scan_chunk fuel h bitmap_size start = Found o i sh →
    0 ≤ o < 64 * Z.of_nat (length (bitmap h))
    ∧ o ≠ last_offset h
    ∧ i = o / 64 ∧ sh = o mod 64
    ∧ slot_taken h o = Some false.
Proof.
  intros HN Hlen. induction fuel as [|fuel IH]; intros start o i sh Hstart H; [discriminate|].
  cbn [scan_chunk] in H.
  destruct (scan_step h bitmap_size start) as [offset'|r] eqn:Hstep.
  - apply (IH offset'); [|exact H].
    apply (scan_step_Next h bitmap_size start); assumption.
  - subst r. apply scan_step_Found in Hstep as (Heq & Hne & Hi & Hsh & w & Hw & Hfree).
    subst start.
    assert (Hword : wrap16 (o / 64) = o / 64).
    { unfold wrap16. apply Z.mod_small. Z.div_mod_to_equations. lia. }
    assert (Hshift : wrap8 (o mod 64) = o mod 64).
    { unfold wrap8. apply Z.mod_small. Z.div_mod_to_equations. lia. }
    rewrite Hword in Hi. rewrite Hshift in Hsh. subst i sh.
    pose proof (lookup_lt_Some _ _ _ Hw) as Hlt.
    split; [Z.div_mod_to_equations; lia|]. split; [exact Hne|].
    split; [reflexivity|]. split; [reflexivity|].
    unfold slot_taken. rewrite Hw, Hfree. reflexivity.
Qed.

Lemma scan_finds_clear_bit_general (fuel : nat) (h : page_header) (bitmap_size o i sh : Z) :
  0 < bitmap_size ≤ 64 * Z.of_nat (length (bitmap h)) →
  Z.of_nat (length (bitmap h)) < 2 ^ 16 →
  scan_chunk fuel h bitmap_size (wrap32 (last_offset h + 1) mod bitmap_size) = Found o i sh →
  0 ≤ o < 64 * Z.of_nat (length (bitmap h))
  ∧ o ≠ last_offset h
  ∧ i = o / 64 ∧ sh = o mod 64
  ∧ slot_taken h o = Some false.
Proof.
  intros HN Hlen. apply scan_chunk_Found; [exact HN|exact Hlen|].
  pose proof (Z.mod_pos_bound (wrap32 (last_offset h + 1)) bitmap_size ltac:(lia)). lia.
Qed.

(** X3: on a chunk whose bitmap has room for its slots, whatever the inner
    loop of [pop_bucket] leaves with, started as [pop_bucket] starts it, is
    a slot inside the bitmap whose bit is clear and which is not the slot
    at [last_offset]; the word index and the shift it leaves with are
    those of that slot. *)
Theorem scan_finds_clear_bit (fuel : nat) (h : page_header) (bitmap_size o i sh : Z) :
  0 < bitmap_size ≤ 64 * Z.of_nat (length (bitmap h)) →
  Z.of_nat (length (bitmap h)) < 2 ^ 16 →
  scan_chunk fuel h bitmap_size (wrap32 (last_offset h + 1) mod bitmap_size) = Found o i sh →
  0 ≤ o < 64 * Z.of_nat (length (bitmap h))
  ∧ o ≠ last_offset h
  ∧ i = o / 64 ∧ sh = o mod 64
  ∧ slot_taken h o = Some false.
Proof.
  apply scan_finds_clear_bit_general.
Qed.

Lemma scan_finds_clear_bit_witness :
  0 ≤ 3 < 64 * Z.of_nat (length (bitmap (mk_header 3 0 2 [0x6000000000000000; 0])))
  ∧ 3 ≠ last_offset (mk_header 3 0 2 [0x6000000000000000; 0])
  ∧ 0 = 3 / 64 ∧ 3 = 3 mod 64
  ∧ slot_taken (mk_header 3 0 2 [0x6000000000000000; 0]) 3 = Some false.
Proof.
  apply (scan_finds_clear_bit 5 (mk_header 3 0 2 [0x6000000000000000; 0]) 100 3 0 3).
  - simpl. lia.
  - simpl. lia.
  - reflexivity.
Defined.

(** ** A fresh chunk *)

Lemma table_entry (bucket_i : nat) (bsize : Z) :
  c_Bucket_Sizes !! bucket_i = Some bsize →
  (bucket_i < BUCKET_NUM)%nat
  ∧ ∃ chunks enc, c_MMAP_Chunks !! bucket_i = Some chunks
                  ∧ 0 < chunks * ALLOC_CHUNK
                  ∧ (chunks * ALLOC_CHUNK) mod SMALL_PAGE = 0
                  ∧ gen_header_size bsize = Done enc
                  ∧ parse_header_size enc = bsize
                  ∧ 0 < bitmap_size_of chunks bsize ≤ Z.of_nat BITMAP_LONGS * 64.
Proof.
  intros Hsize.
  do 21 (destruct bucket_i as [|bucket_i];
         [ injection Hsize as <-; split; [unfold BUCKET_NUM; lia|];
           eexists _, _; split; [reflexivity|];
           split; [reflexivity|]; split; [reflexivity|];
           split; [vm_compute; reflexivity|];
           split; [vm_compute; reflexivity|];
           vm_compute; split; [reflexivity|discriminate] |]).
  discriminate Hsize.
Qed.

Lemma mmap_bucket_inv (bucket_i : nat) (s s1 : state) (a : Z) :
  mmap_bucket bucket_i s = Ret a s1 →
  ∃ chunks bsize enc,
    c_MMAP_Chunks !! bucket_i = Some chunks
    ∧ c_Bucket_Sizes !! bucket_i = Some bsize
    ∧ gen_header_size bsize = Done enc
    ∧ a = next_map s ∧ a ≠ 0
    ∧ s1 = set_headers <[a := mk_header enc 0 0 (replicate BITMAP_LONGS 0)]>
             (snd (mmap (chunks * ALLOC_CHUNK) s)).
Proof.
  unfold mmap_bucket. intros H.
  apply bind_Ret in H as ([] & s0 & Hassert & H).
  unfold assert in Hassert. destruct (_ <? _)%nat; [|discriminate].
  injection Hassert as <-.
  destruct (c_MMAP_Chunks !! bucket_i) as [chunks|]; [|discriminate].
  destruct (c_Bucket_Sizes !! bucket_i) as [bsize|]; [|discriminate].
  unfold mmap, madvise in H. cbn [negb Z.eqb] in H.
  destruct (Z.eqb_spec (next_map s) 0) as [|Hne]; [discriminate|].
  apply bind_Ret in H as (enc & s2 & Hgen & H).
  unfold lift_partial in Hgen.
  destruct (gen_header_size bsize) as [e| |] eqn:Hdone; try discriminate.
  injection Hgen as -> <-.
  apply bind_Ret in H as ([] & s3 & Hput & H).
  injection Hput as <-. injection H as <- <-.
  exists chunks, bsize, enc. repeat split; auto.
Qed.

Lemma zero_bitmap_clear (i : Z) :
  0 ≤ i < 64 * Z.of_nat BITMAP_LONGS →
  slot_taken (mk_header 0 0 0 (replicate BITMAP_LONGS 0)) i = Some false.
Proof.
  intros Hi. unfold slot_taken. cbn [bitmap].
  rewrite lookup_replicate_2; [reflexivity|].
  change (Z.of_nat BITMAP_LONGS) with 2497 in Hi. unfold BITMAP_LONGS.
  Z.div_mod_to_equations. lia.
Qed.

(** X4: [mmap_bucket] of a bucket, when the kernel returns a non-null
    address, returns that address; the chunk is recorded with the length
    of the bucket's chunks, its header decodes to the bucket size, has no
    next page, cursor 0 and every bit clear; memory bytes, the stacks and
    the headers of the other chunks are as before. *)
Theorem mmap_bucket_fresh_chunk (bucket_i : nat) (chunks bsize : Z) (s : state) :
  c_MMAP_Chunks !! bucket_i = Some chunks →
  c_Bucket_Sizes !! bucket_i = Some bsize →
  next_map s ≠ 0 →
  ∃ s' h,
    mmap_bucket bucket_i s = Ret (next_map s) s'
    ∧ headers s' !! next_map s = Some h
    ∧ parse_header_size (hsize h) = bsize
    ∧ next_page h = 0 ∧ last_offset h = 0
    ∧ (∀ i, 0 ≤ i < 64 * Z.of_nat BITMAP_LONGS → slot_taken h i = Some false)
    ∧ mappings s' !! next_map s = Some (chunks * ALLOC_CHUNK)
    ∧ next_map s' = next_map s + chunks * ALLOC_CHUNK
    ∧ mem s' = mem s
    ∧ g_Bucket_Stacks s' = g_Bucket_Stacks s
    ∧ ∀ a, a ≠ next_map s → headers s' !! a = headers s !! a.
Proof.
  intros Hchunks Hsize Hmap.
  destruct (table_entry bucket_i bsize Hsize)
    as (Hlt & chunks' & enc & Hchunks' & Hpos & Hpage & Hgen & Hdec & _).
  rewrite Hchunks in Hchunks'. injection Hchunks' as <-.
  unfold mmap_bucket, bind at 1, assert.
  destruct (Nat.ltb_spec bucket_i BUCKET_NUM) as [_|Hge]; [|lia].
  rewrite Hchunks, Hsize. unfold mmap, madvise. cbn [negb Z.eqb].
  destruct (Z.eqb_spec (next_map s) 0) as [|_]; [contradiction|].
  unfold bind, lift_partial. rewrite Hgen. cbn.
  eexists _, _. split; [reflexivity|]. cbn.
  split; [apply lookup_insert_eq|]. cbn.
  split; [exact Hdec|]. split; [reflexivity|]. split; [reflexivity|].
  split; [intros i Hi; apply (zero_bitmap_clear i Hi)|].
  split; [apply lookup_insert_eq|].
  split.
  { f_equal. unfold round_up_to_page. unfold SMALL_PAGE in *.
    Z.div_mod_to_equations. lia. }
  split; [reflexivity|]. split; [reflexivity|].
  intros a Ha. apply lookup_insert_ne. congruence.
Qed.

Lemma mmap_bucket_fresh_chunk_witness :
  ∃ s' h,
    mmap_bucket 19 started = Ret (next_map started) s'
    ∧ headers s' !! next_map started = Some h
    ∧ parse_header_size (hsize h) = 6144
    ∧ next_page h = 0 ∧ last_offset h = 0
    ∧ (∀ i, 0 ≤ i < 64 * Z.of_nat BITMAP_LONGS → slot_taken h i = Some false)
    ∧ mappings s' !! next_map started = Some (16 * ALLOC_CHUNK)
    ∧ next_map s' = next_map started + 16 * ALLOC_CHUNK
    ∧ mem s' = mem started
    ∧ g_Bucket_Stacks s' = g_Bucket_Stacks started
    ∧ ∀ a, a ≠ next_map started → headers s' !! a = headers started !! a.
Proof.
  apply (mmap_bucket_fresh_chunk 19 16 6144 started); [reflexivity|reflexivity|].
  vm_compute. discriminate.
Defined.

(** ** What a pop writes *)

Lemma take_slot_inv (bsize arena header offset bitmap_i bitmap_shift : Z)
      (s s' : state) (p : Z) :
  take_slot bsize arena header offset bitmap_i bitmap_shift s = Ret p s' →
  ∃ h w,
    headers s !! header = Some h
    ∧ bitmap h !! Z.to_nat bitmap_i = Some w
    ∧ p = slot_pointer header bsize offset
    ∧ headers s'
      = <[header := mk_header (hsize h) (next_page h) offset
                      (<[Z.to_nat bitmap_i := Z.lor w (Z.shiftr c_64_MSB_High bitmap_shift)]>
                         (bitmap h))]> (headers s)
    ∧ mem s' = store_le 1 (p - 1) arena (store_le 4 (p - 5) (wrap32 (p - 5 - header)) (mem s))
    ∧ mappings s' = mappings s ∧ next_map s' = next_map s
    ∧ g_Bucket_Stacks s' = g_Bucket_Stacks s
    ∧ t_Favorite_Arenas s' = t_Favorite_Arenas s.
Proof.
  unfold take_slot. intros H.
  apply bind_Ret in H as (h & s1 & Hget & H).
  unfold get_header in Hget. destruct (headers s !! header) as [h0|] eqn:Hh; [|discriminate].
  injection Hget as -> ->.
  destruct (bitmap h !! Z.to_nat bitmap_i) as [w|] eqn:Hw; [|discriminate].
  injection H as <- <-. exists h, w.
  split; [reflexivity|]. split; [exact Hw|]. split; [reflexivity|].
  split; [reflexivity|]. split; [|auto].
  unfold slot_pointer. cbn.
  set (q := header + sizeof_page_header + wrap32 (offset * wrap32 (bsize + c_Bucket_Metadata_Size))).
  replace (q + 4 + 1 - 1) with (q + 4) by lia.
  replace (q + 4 + 1 - 5) with q by lia. reflexivity.
Qed.

(** A pop either takes a slot the scan found, or maps a chunk, links it
    in front of the stack and takes its slot 0. *)
Lemma pop_bucket_inv (fuel : nat) (bucket_i : nat) (s s' : state) (p : Z) :
  pop_bucket fuel bucket_i s = Ret p s' →
  ∃ chunks bsize,
    c_MMAP_Chunks !! bucket_i = Some chunks
    ∧ c_Bucket_Sizes !! bucket_i = Some bsize
    ∧ ((∃ header offset bitmap_i bitmap_shift,
          scan_stack fuel s (bitmap_size_of chunks bsize)
            (stack_head s bucket_i (favorite s bucket_i))
          = FoundIn header offset bitmap_i bitmap_shift
          ∧ take_slot bsize (favorite s bucket_i) header offset bitmap_i bitmap_shift s
            = Ret p s')
       ∨ (∃ enc s0,
            scan_stack fuel s (bitmap_size_of chunks bsize)
              (stack_head s bucket_i (favorite s bucket_i)) = NoBucket
            ∧ gen_header_size bsize = Done enc
            ∧ next_map s ≠ 0
            ∧ headers s0
              = <[next_map s := mk_header enc (stack_head s bucket_i (favorite s bucket_i)) 0
                                  (replicate BITMAP_LONGS 0)]> (headers s)
            ∧ mem s0 = mem s
            ∧ mappings s0 = <[next_map s := chunks * ALLOC_CHUNK]> (mappings s)
            ∧ g_Bucket_Stacks s0
              = <[(bucket_i, favorite s bucket_i) := next_map s]> (g_Bucket_Stacks s)
            ∧ t_Favorite_Arenas s0 = t_Favorite_Arenas s
            ∧ take_slot bsize (favorite s bucket_i) (next_map s) 0 0 0 s0 = Ret p s')).
Proof.
  unfold pop_bucket. intros H.
  destruct (c_MMAP_Chunks !! bucket_i) as [chunks|] eqn:Hchunks; [|discriminate].
  destruct (c_Bucket_Sizes !! bucket_i) as [bsize|] eqn:Hsize; [|discriminate].
  apply bind_Ret in H as ([] & s0 & Hassert & H).
  unfold assert in Hassert. destruct (_ <=? _); [|discriminate].
  injection Hassert as <-. exists chunks, bsize.
  split; [reflexivity|]. split; [reflexivity|].
  destruct (scan_stack _ _ _ _) as [header offset bitmap_i bitmap_shift| |r].
  - left. eauto 10.
  - right.
    apply bind_Ret in H as (header & s1 & Hmmap & H).
    apply mmap_bucket_inv in Hmmap
      as (chunks' & bsize' & enc & Hchunks' & Hsize' & Hgen & -> & Hne & ->).
    rewrite Hchunks in Hchunks'. rewrite Hsize in Hsize'.
    injection Hchunks' as <-. injection Hsize' as <-.
    apply bind_Ret in H as (h & s2 & Hget & H).
    unfold get_header in Hget. cbn in Hget. rewrite lookup_insert_eq in Hget.
    injection Hget as <- <-.
    apply bind_Ret in H as ([] & s3 & Hput & H). injection Hput as <-.
    apply bind_Ret in H as ([] & s4 & Hset & H). injection Hset as <-.
    eexists enc, _. split; [reflexivity|]. split; [exact Hgen|]. split; [exact Hne|].
    split; [|split; [|split; [|split; [|split; [|exact H]]]]]; cbn; try reflexivity.
    apply insert_insert_eq.
  - destruct r; discriminate.
Qed.

Lemma scan_stack_FoundIn (fuel : nat) (s : state) (bitmap_size : Z) :
  ∀ start header offset bitmap_i bitmap_shift,
    scan_stack fuel s bitmap_size start = FoundIn header offset bitmap_i bitmap_shift →
    ∃ h fuel', headers s !! header = Some h ∧ header ≠ 0
               ∧ scan_chunk fuel' h bitmap_size (wrap32 (last_offset h + 1) mod bitmap_size)
                 = Found offset bitmap_i bitmap_shift.
Proof.
  induction fuel as [|fuel IH]; intros start header offset bitmap_i bitmap_shift H;
    [discriminate|].
  cbn [scan_stack] in H. destruct (Z.eqb_spec start 0) as [|Hne]; [discriminate|].
  destruct (headers s !! start) as [h|] eqn:Hh; [|discriminate].
  destruct (scan_chunk (S fuel) h bitmap_size _) as [o i sh| | |] eqn:Hscan;
    try discriminate.
  - injection H as <- <- <- <-. eauto 10.
  - apply IH in H. exact H.
Qed.

(** X5: when [pop_bucket] returns a pointer, the byte before it holds the
    arena index of the thread and the four bytes before that hold the
    distance from the chunk header to those four bytes, cut to 32 bits;
    so, when that distance fits 32 bits, subtracting the stored distance
    leads back to the header, which holds the bucket's encoded size. *)
Theorem pop_bucket_stamps (fuel : nat) (bucket_i : nat) (s s' : state) (p : Z) :
  0 ≤ favorite s bucket_i < 2 ^ 8 →
  pop_bucket fuel bucket_i s = Ret p s' →
  ∃ header h,
    headers s' !! header = Some h
    ∧ load8 s' (p - 1) = favorite s bucket_i
    ∧ load32 s' (p - 5) = wrap32 (p - 5 - header)
    ∧ (0 ≤ p - 5 - header < 2 ^ 32 → p - 5 - load32 s' (p - 5) = header).
Proof.
  intros Harena H.
  assert (Hstamp : ∀ bsize header offset i sh s0,
             take_slot bsize (favorite s bucket_i) header offset i sh s0 = Ret p s' →
             ∃ h, headers s' !! header = Some h
                  ∧ load8 s' (p - 1) = favorite s bucket_i
                  ∧ load32 s' (p - 5) = wrap32 (p - 5 - header)).
  { intros bsize header offset i sh s0 Htake.
    apply take_slot_inv in Htake as (h & w & _ & _ & _ & Hheaders & Hmem & _).
    eexists. split; [rewrite Hheaders; apply lookup_insert_eq|].
    unfold load8, load32, load_le. rewrite Hmem. split.
    - cbn [store_le]. rewrite read8_insert_eq. apply Z.mod_small. exact Harena.
    - rewrite read_le_store_le_other by (simpl; lia).
      rewrite read_le_store_le. unfold wrap32. change (8 * Z.of_nat 4) with 32.
      apply Z.mod_mod. lia. }
  apply pop_bucket_inv in H as (chunks & bsize & _ & _ & [Hfound|Hnew]).
  - destruct Hfound as (header & offset & i & sh & _ & Htake).
    destruct (Hstamp _ _ _ _ _ _ Htake) as (h & Hh & Hflag & Hoff).
    exists header, h. split; [exact Hh|]. split; [exact Hflag|]. split; [exact Hoff|].
    intros Hfit. rewrite Hoff, wrap32_small by exact Hfit. lia.
  - destruct Hnew as (enc & s0 & _ & _ & _ & _ & _ & _ & _ & _ & Htake).
    destruct (Hstamp _ _ _ _ _ _ Htake) as (h & Hh & Hflag & Hoff).
    exists (next_map s), h. split; [exact Hh|]. split; [exact Hflag|]. split; [exact Hoff|].
    intros Hfit. rewrite Hoff, wrap32_small by exact Hfit. lia.
Qed.

Lemma pop_bucket_stamps_witness :
  ∃ header h,
    headers (state_of (pop_bucket 8 0 started)) !! header = Some h
    ∧ load8 (state_of (pop_bucket 8 0 started)) (268455474 - 1) = favorite started 0
    ∧ load32 (state_of (pop_bucket 8 0 started)) (268455474 - 5)
      = wrap32 (268455474 - 5 - header)
    ∧ (0 ≤ 268455474 - 5 - header < 2 ^ 32 →
       268455474 - 5 - load32 (state_of (pop_bucket 8 0 started)) (268455474 - 5) = header).
Proof.
  apply (pop_bucket_stamps 8 0 started).
  - vm_compute. split; discriminate || reflexivity.
  - apply returned_Ret. vm_compute. reflexivity.
Defined.

(** ** The bit a pop sets *)

Lemma set_bit_land (w a : Z) : 0 ≤ a → Z.land (Z.lor w (2 ^ a)) (2 ^ a) = 2 ^ a.
Proof.
  intros Ha. apply Z.bits_inj'. intros n Hn.
  rewrite Z.land_spec, Z.lor_spec, Z.pow2_bits_eqb by lia.
  destruct (a =? n); [rewrite orb_true_r; reflexivity|apply andb_false_r].
Qed.

Lemma set_other_bit (w a b : Z) :
  0 ≤ a → 0 ≤ b → a ≠ b → Z.land (Z.lor w (2 ^ a)) (2 ^ b) = Z.land w (2 ^ b).
Proof.
  intros Ha Hb Hne. apply Z.bits_inj'. intros n Hn.
  rewrite !Z.land_spec, Z.lor_spec, !Z.pow2_bits_eqb by lia.
  destruct (Z.eqb_spec b n) as [<-|_]; [|rewrite !andb_false_r; reflexivity].
  destruct (Z.eqb_spec a b) as [|_]; [contradiction|]. rewrite orb_false_r. reflexivity.
Qed.

(** The header [take_slot] writes for slot [o]. *)
Lemma slot_taken_after_take (h : page_header) (w o : Z) :
  0 ≤ o →
  bitmap h !! Z.to_nat (o / 64) = Some w →
  let h' := mk_header (hsize h) (next_page h) o
              (<[Z.to_nat (o / 64) := Z.lor w (Z.shiftr c_64_MSB_High (o mod 64))]> (bitmap h)) in
  slot_taken h' o = Some true
  ∧ ∀ i, 0 ≤ i → i ≠ o → slot_taken h' i = slot_taken h i.
Proof.
  intros Ho Hw h'. pose proof (lookup_lt_Some _ _ _ Hw) as Hlt. split.
  - unfold slot_taken, h'. cbn [bitmap]. rewrite list_lookup_insert_eq by exact Hlt.
    rewrite msb_shift by (Z.div_mod_to_equations; lia).
    rewrite set_bit_land by (Z.div_mod_to_equations; lia).
    destruct (Z.eqb_spec (2 ^ (63 - o mod 64)) 0) as [H0|_]; [|reflexivity].
    pose proof (Z.pow_pos_nonneg 2 (63 - o mod 64) ltac:(lia)
                  ltac:(Z.div_mod_to_equations; lia)). lia.
  - intros i Hi Hne. unfold slot_taken, h'. cbn [bitmap].
    destruct (Z.eq_dec (i / 64) (o / 64)) as [Heq|Hdiff].
    + rewrite Heq, Hw. rewrite list_lookup_insert_eq by exact Hlt.
      rewrite !msb_shift by (Z.div_mod_to_equations; lia).
      rewrite set_other_bit; [reflexivity| | |]; Z.div_mod_to_equations; lia.
    + rewrite list_lookup_insert_ne; [reflexivity|].
      intros Hnat. apply Hdiff. symmetry. apply Z2Nat.inj in Hnat;
        [exact Hnat| |]; Z.div_mod_to_equations; lia.
Qed.

(** X6: in a state whose headers all have a bitmap of [BITMAP_LONGS] words
    and where the kernel's next address holds no chunk yet, when
    [pop_bucket] returns a pointer it is the pointer of a slot whose bit is
    set afterwards; if the chunk was there before, the bit was clear
    before, the slot is not the one at the old [last_offset], and every
    other bit of the chunk is as before. *)
Theorem pop_bucket_takes_clear_bit (fuel : nat) (bucket_i : nat) (s s' : state) (p : Z) :
  map_Forall (λ _ h, length (bitmap h) = BITMAP_LONGS) (headers s) →
  headers s !! next_map s = None →
  pop_bucket fuel bucket_i s = Ret p s' →
  ∃ header h' bsize o,
    c_Bucket_Sizes !! bucket_i = Some bsize
    ∧ headers s' !! header = Some h'
    ∧ o = last_offset h'
    ∧ 0 ≤ o < 64 * Z.of_nat BITMAP_LONGS
    ∧ p = slot_pointer header bsize o
    ∧ slot_taken h' o = Some true
    ∧ ∀ h, headers s !! header = Some h →
           slot_taken h o = Some false
           ∧ o ≠ last_offset h
           ∧ ∀ i, 0 ≤ i → i ≠ o → slot_taken h' i = slot_taken h i.
Proof.
  intros Hwf Hfresh H.
  apply pop_bucket_inv in H as (chunks & bsize & Hchunks & Hsize & [Hfound|Hnew]).
  - destruct Hfound as (header & o & i & sh & Hscan & Htake).
    apply scan_stack_FoundIn in Hscan as (h & fuel' & Hh & _ & Hscan).
    pose proof (map_Forall_lookup_1 _ _ _ _ Hwf Hh) as Hlen. cbn beta in Hlen.
    destruct (table_entry bucket_i bsize Hsize)
      as (_ & chunks' & enc & Hchunks' & _ & _ & _ & _ & HN).
    rewrite Hchunks in Hchunks'. injection Hchunks' as <-.
    apply scan_finds_clear_bit_general in Hscan
      as (Ho & Hne & -> & -> & Hclear);
      [|rewrite Hlen; lia|rewrite Hlen; unfold BITMAP_LONGS; lia].
    rewrite Hlen in Ho.
    apply take_slot_inv in Htake as (h0 & w & Hh0 & Hw & Hp & Hheaders & _).
    rewrite Hh in Hh0. injection Hh0 as <-.
    destruct (slot_taken_after_take h w o ltac:(lia) Hw) as [Hset Hother].
    eexists header, _, bsize, o. split; [exact Hsize|].
    split; [rewrite Hheaders; apply lookup_insert_eq|].
    split; [reflexivity|]. split; [exact Ho|]. split; [exact Hp|]. split; [exact Hset|].
    intros h1 Hh1. rewrite Hh in Hh1. injection Hh1 as <-. auto.
  - destruct Hnew as (enc & s0 & _ & _ & _ & Hheaders0 & _ & _ & _ & _ & Htake).
    apply take_slot_inv in Htake as (h0 & w & Hh0 & Hw & Hp & Hheaders & _).
    rewrite Hheaders0, lookup_insert_eq in Hh0. injection Hh0 as <-.
    cbn [bitmap hsize next_page] in *.
    change (Z.to_nat 0) with (Z.to_nat (0 / 64)) in Hw, Hheaders.
    change (Z.shiftr c_64_MSB_High 0) with (Z.shiftr c_64_MSB_High (0 mod 64)) in Hheaders.
    destruct (slot_taken_after_take
                (mk_header enc (stack_head s bucket_i (favorite s bucket_i)) 0
                           (replicate BITMAP_LONGS 0)) w 0 ltac:(lia) Hw) as [Hset _].
    eexists (next_map s), _, bsize, 0. split; [exact Hsize|].
    split; [rewrite Hheaders; apply lookup_insert_eq|].
    split; [reflexivity|]. split; [unfold BITMAP_LONGS; lia|]. split; [exact Hp|].
    split; [exact Hset|].
    intros h1 Hh1. rewrite Hfresh in Hh1. discriminate.
Qed.

Lemma pop_bucket_takes_clear_bit_witness :
  ∃ header h' bsize o,
    c_Bucket_Sizes !! 0%nat = Some bsize
    ∧ headers (state_of (pop_bucket 8 0 started)) !! header = Some h'
    ∧ o = last_offset h'
    ∧ 0 ≤ o < 64 * Z.of_nat BITMAP_LONGS
    ∧ 268455474 = slot_pointer header bsize o
    ∧ slot_taken h' o = Some true
    ∧ ∀ h, headers started !! header = Some h →
           slot_taken h o = Some false
           ∧ o ≠ last_offset h
           ∧ ∀ i, 0 ≤ i → i ≠ o → slot_taken h' i = slot_taken h i.
Proof.
  apply (pop_bucket_takes_clear_bit 8 0 started).
  - apply (bool_decide_unpack _). vm_compute. exact I.
  - vm_compute. reflexivity.
  - apply returned_Ret. vm_compute. reflexivity.
Defined.

(** ** A pop that finds no slot *)

Lemma bind_eq {A B} (m : M A) (k : A → M B) (s s1 : state) (a : A) :
  m s = Ret a s1 → bind m k s = k a s1.
Proof. intros H. unfold bind. rewrite H. reflexivity. Qed.

Lemma get_header_eq (header : Z) (h : page_header) (s : state) :
  headers s !! header = Some h → get_header header s = Ret h s.
Proof. intros H. unfold get_header. rewrite H. reflexivity. Qed.

Lemma mmap_bucket_eq (bucket_i : nat) (chunks bsize enc : Z) (s : state) :
  c_MMAP_Chunks !! bucket_i = Some chunks →
  c_Bucket_Sizes !! bucket_i = Some bsize →
  gen_header_size bsize = Done enc →
  next_map s ≠ 0 →
  mmap_bucket bucket_i s
  = Ret (next_map s)
        (set_headers <[next_map s := mk_header enc 0 0 (replicate BITMAP_LONGS 0)]>
           (snd (mmap (chunks * ALLOC_CHUNK) s))).
Proof.
  intros Hchunks Hsize Hgen Hmap.
  assert (Hlt : (bucket_i < BUCKET_NUM)%nat) by (apply lookup_lt_Some in Hsize; exact Hsize).
  unfold mmap_bucket, bind at 1, assert.
  destruct (Nat.ltb_spec bucket_i BUCKET_NUM) as [_|Hge]; [|lia].
  rewrite Hchunks, Hsize. unfold mmap, madvise. cbn [negb Z.eqb].
  destruct (Z.eqb_spec (next_map s) 0) as [|_]; [contradiction|].
  unfold bind, lift_partial. rewrite Hgen. reflexivity.
Qed.

(** X7: when the scan of the stack ends at the null link, [pop_bucket]
    maps a chunk at the kernel's next address, makes it the head of the
    stack with the old head as its next page, and returns the pointer of
    its slot 0, whose bit is then the one bit set. *)
Theorem pop_bucket_maps_chunk (fuel : nat) (bucket_i : nat) (chunks bsize : Z) (s : state) :
  c_MMAP_Chunks !! bucket_i = Some chunks →
  c_Bucket_Sizes !! bucket_i = Some bsize →
  next_map s ≠ 0 →
  scan_stack fuel s (bitmap_size_of chunks bsize)
    (stack_head s bucket_i (favorite s bucket_i)) = NoBucket →
  ∃ s' h,
    pop_bucket fuel bucket_i s = Ret (slot_pointer (next_map s) bsize 0) s'
    ∧ stack_head s' bucket_i (favorite s bucket_i) = next_map s
    ∧ headers s' !! next_map s = Some h
    ∧ next_page h = stack_head s bucket_i (favorite s bucket_i)
    ∧ last_offset h = 0
    ∧ parse_header_size (hsize h) = bsize
    ∧ slot_taken h 0 = Some true
    ∧ (∀ i, 0 < i < 64 * Z.of_nat BITMAP_LONGS → slot_taken h i = Some false)
    ∧ mappings s' !! next_map s = Some (chunks * ALLOC_CHUNK).
Proof.
  intros Hchunks Hsize Hmap Hscan.
  destruct (table_entry bucket_i bsize Hsize)
    as (Hlt & chunks' & enc & Hchunks' & _ & _ & Hgen & Hdec & HN).
  rewrite Hchunks in Hchunks'. injection Hchunks' as <-.
  set (h0 := mk_header enc (stack_head s bucket_i (favorite s bucket_i)) 0
                       (replicate BITMAP_LONGS 0)).
  assert (Hw : bitmap h0 !! Z.to_nat (0 / 64) = Some 0) by reflexivity.
  destruct (slot_taken_after_take h0 0 0 ltac:(lia) Hw) as [Hset Hother].
  cbv zeta in Hset, Hother. change (0 mod 64) with 0 in Hset, Hother.
  change (0 / 64) with 0 in Hset, Hother, Hw.
  eexists _, (mk_header (hsize h0) (next_page h0) 0
                (<[Z.to_nat 0 := Z.lor 0 (Z.shiftr c_64_MSB_High 0)]> (bitmap h0))).
  split.
  { unfold pop_bucket. rewrite Hchunks, Hsize. cbv zeta.
    unfold bind at 1, assert.
    destruct (Z.leb_spec (bitmap_size_of chunks bsize) (Z.of_nat BITMAP_LONGS * 64))
      as [_|Hgt]; [|lia].
    rewrite Hscan.
    rewrite (bind_eq _ _ _ _ _ (mmap_bucket_eq bucket_i chunks bsize enc s
                                   Hchunks Hsize Hgen Hmap)).
    erewrite (bind_eq (get_header (next_map s)));
      [|apply get_header_eq; apply lookup_insert_eq].
    erewrite bind_eq; [|reflexivity]. erewrite bind_eq; [|reflexivity].
    cbn [hsize last_offset bitmap]. fold h0.
    unfold take_slot.
    erewrite (bind_eq (get_header (next_map s)));
      [|apply get_header_eq; apply lookup_insert_eq].
    rewrite Hw. reflexivity. }
  split; [unfold stack_head; cbn [g_Bucket_Stacks store8 store32 set_mem set_headers set_stack];
          rewrite lookup_insert_eq; reflexivity|].
  split; [cbn [headers store8 store32 set_mem set_headers set_stack]; apply lookup_insert_eq|].
  split; [reflexivity|]. split; [reflexivity|]. split; [exact Hdec|].
  split; [exact Hset|]. split.
  - intros i Hi. rewrite <- (zero_bitmap_clear i) by lia.
    rewrite (Hother i) by lia. unfold h0, slot_taken. reflexivity.
  - cbn [mappings store8 store32 set_mem set_headers set_stack mmap snd].
    apply lookup_insert_eq.
Qed.

Lemma pop_bucket_maps_chunk_witness :
  ∃ s' h,
    pop_bucket 1 0 boot = Ret (slot_pointer (next_map boot) 8 0) s'
    ∧ stack_head s' 0 (favorite boot 0) = next_map boot
    ∧ headers s' !! next_map boot = Some h
    ∧ next_page h = stack_head boot 0 (favorite boot 0)
    ∧ last_offset h = 0
    ∧ parse_header_size (hsize h) = 8
    ∧ slot_taken h 0 = Some true
    ∧ (∀ i, 0 < i < 64 * Z.of_nat BITMAP_LONGS → slot_taken h i = Some false)
    ∧ mappings s' !! next_map boot = Some (1 * ALLOC_CHUNK).
Proof.
  apply (pop_bucket_maps_chunk 1 0 1 8 boot); [reflexivity|reflexivity| |reflexivity].
  vm_compute. discriminate.
Defined.

(** ** What an allocation leaves alone *)

Lemma read8_store_le_other (n : nat) :
  ∀ a v m b, b < a ∨ a + Z.of_nat n ≤ b → read8 (store_le n a v m) b = read8 m b.
Proof.
  induction n as [|n IH]; intros a v m b Hb; [reflexivity|].
  cbn [store_le]. rewrite read8_insert_ne by lia. apply IH. lia.
Qed.

Lemma mmap_non_bucket_inv (n : Z) (s s' : state) (p : Z) :
  mmap_non_bucket n s = Ret p s' →
  ∃ size, p = next_map s + 9 ∧ next_map s ≠ 0
          ∧ mem s' = store_le 1 (p - 1) c_Non_Bucket_Flag (store_le 8 (p - 9) size (mem s))
          ∧ mappings s' = <[next_map s := size]> (mappings s)
          ∧ headers s' = headers s
          ∧ g_Bucket_Stacks s' = g_Bucket_Stacks s.
Proof.
  unfold mmap_non_bucket. intros H.
  apply bind_Ret in H as ([] & s0 & Hassert & H).
  unfold assert in Hassert. destruct (_ <? _); [|discriminate].
  injection Hassert as <-. unfold mmap in H.
  destruct (Z.eqb_spec (next_map s) 0) as [|Hne]; [discriminate|].
  injection H as <- <-. eexists. split; [lia|]. split; [exact Hne|].
  split; [|auto].
  replace (next_map s + 8 + 1 - 1) with (next_map s + 8) by lia.
  replace (next_map s + 8 + 1 - 9) with (next_map s) by lia. reflexivity.
Qed.

Lemma xmalloc_frame (fuel : nat) (n : Z) (s s' : state) (p a : Z) :
  xmalloc fuel n s = Ret p s' →
  a < p - (if BUCKET_MAX <? n then 9 else 5) ∨ p ≤ a →
  load8 s' a = load8 s a.
Proof.
  unfold xmalloc. intros H Ha. destruct (BUCKET_MAX <? n).
  - apply mmap_non_bucket_inv in H as (size & _ & _ & Hmem & _).
    unfold load8. rewrite Hmem.
    rewrite !read8_store_le_other by (simpl; lia). reflexivity.
  - apply bind_Ret in H as ([] & s0 & Hassert & H).
    unfold assert in Hassert. destruct (bucket_fits _ _); [|discriminate].
    injection Hassert as <-.
    assert (Htake : ∀ bsize arena header offset i sh s0,
               take_slot bsize arena header offset i sh s0 = Ret p s' →
               mem s0 = mem s → load8 s' a = load8 s a).
    { intros bsize arena header offset i sh s1 Htake Hmem0.
      apply take_slot_inv in Htake as (h & w & _ & _ & _ & _ & Hmem & _).
      unfold load8. rewrite Hmem, Hmem0.
      rewrite !read8_store_le_other by (simpl; lia). reflexivity. }
    apply pop_bucket_inv in H as (chunks & bsize & _ & _ & [Hfound|Hnew]).
    + destruct Hfound as (header & offset & i & sh & _ & H). eauto.
    + destruct Hnew as (enc & s0 & _ & _ & _ & _ & Hmem0 & _ & _ & _ & H). eauto.
Qed.



(** ** What a free leaves alone *)

Lemma land_clear (w x m : Z) : Z.land w m = 0 → Z.land (Z.land w x) m = 0.
Proof.
  intros H. rewrite <- Z.land_assoc, (Z.land_comm x m), Z.land_assoc, H.
  apply Z.land_0_l.
Qed.

Lemma push_bucket_inv (bucket_i : nat) (arena_i header addr : Z) (s s' : state) :
  push_bucket bucket_i arena_i header addr s = Ret tt s' →
  ∃ h h',
    headers s !! header = Some h
    ∧ s' = set_headers <[header := h']> s
    ∧ hsize h' = hsize h ∧ next_page h' = next_page h ∧ last_offset h' = last_offset h
    ∧ length (bitmap h') = length (bitmap h)
    ∧ ∀ i, slot_taken h i = Some false → slot_taken h' i = Some false.
Proof.
  unfold push_bucket. intros H.
  apply bind_Ret in H as ([] & s0 & Hassert & H).
  unfold assert in Hassert. destruct (_ <? _)%nat; [|discriminate].
  injection Hassert as <-.
  destruct (c_Bucket_Sizes !! bucket_i) as [bsize|]; [|discriminate].
  cbv zeta in H.
  apply bind_Ret in H as (h & s1 & Hget & H).
  unfold get_header in Hget. destruct (headers s !! header) as [h0|] eqn:Hh; [|discriminate].
  injection Hget as -> ->.
  set (j := Z.to_nat (wrap16 (push_offset bsize header addr / 64))) in *.
  destruct (bitmap h !! j) as [w|] eqn:Hw; [|discriminate].
  injection H as <-. clearbody j.
  eexists h, _. split; [reflexivity|]. split; [reflexivity|]. cbn.
  split; [reflexivity|]. split; [reflexivity|]. split; [reflexivity|].
  split; [apply length_insert|].
  intros i Hi. unfold slot_taken in *. cbn [bitmap].
  destruct (decide (j = Z.to_nat (i / 64))) as [Heq|Hne].
  - rewrite <- Heq in *. rewrite Hw in Hi. rewrite list_lookup_insert_eq by (eapply lookup_lt_Some; exact Hw).
    injection Hi as Hi. f_equal.
    destruct (Z.eqb_spec (Z.land w (Z.shiftr c_64_MSB_High (i mod 64))) 0) as [H0|];
      [|discriminate].
    rewrite land_clear by exact H0. reflexivity.
  - rewrite list_lookup_insert_ne by exact Hne. exact Hi.
Qed.

(** X9: when [xfree] of a non-null pointer whose flag is not 0xFF
    returns, memory bytes, mappings and the stacks are as before; the one
    header changed is the one the stored distance leads to, and it keeps
    its encoded size, its next page and its [last_offset]; no bit that was
    clear is set. *)
Theorem xfree_bucket_keeps_chunks (p : Z) (s s' : state) :
  p ≠ 0 → load8 s (p - 1) ≠ 0xFF →
  xfree p s = Ret tt s' →
  mem s' = mem s ∧ mappings s' = mappings s ∧ g_Bucket_Stacks s' = g_Bucket_Stacks s
  ∧ ∃ h h',
      headers s !! (p - 5 - load32 s (p - 5)) = Some h
      ∧ headers s' = <[p - 5 - load32 s (p - 5) := h']> (headers s)
      ∧ hsize h' = hsize h ∧ next_page h' = next_page h ∧ last_offset h' = last_offset h
      ∧ ∀ i, slot_taken h i = Some false → slot_taken h' i = Some false.
Proof.
  intros Hp Hflag H. unfold xfree in H.
  destruct (Z.eqb_spec p 0) as [|_]; [contradiction|]. cbv zeta in H.
  unfold c_Non_Bucket_Flag, c_Bucket_Metadata_Size in H.
  destruct (Z.eqb_spec (load8 s (p - 1)) 255) as [|_]; [contradiction|].
  destruct (load8 s (p - 1) <? ARENA_NUM); [|discriminate].
  apply bind_Ret in H as (h & s1 & Hget & H).
  unfold get_header in Hget.
  destruct (headers s !! (p - 5 - load32 s (p - 5))) as [h0|] eqn:Hh; [|discriminate].
  injection Hget as -> <-.
  apply bind_Ret in H as ([] & s0 & Hassert & H).
  unfold assert in Hassert. destruct (_ <? _)%nat; [|discriminate].
  injection Hassert as <-.
  apply push_bucket_inv in H as (h1 & h' & Hh1 & -> & Hsize & Hnext & Hlast & _ & Hbits).
  rewrite Hh in Hh1. injection Hh1 as <-.
  split; [reflexivity|]. split; [reflexivity|]. split; [reflexivity|].
  exists h, h'. auto 10.
Qed.

Lemma xfree_bucket_keeps_chunks_witness :
  mem (state_of (xfree 268455474 (state_of (xmalloc 8 8 started))))
  = mem (state_of (xmalloc 8 8 started))
  ∧ mappings (state_of (xfree 268455474 (state_of (xmalloc 8 8 started))))
    = mappings (state_of (xmalloc 8 8 started))
  ∧ g_Bucket_Stacks (state_of (xfree 268455474 (state_of (xmalloc 8 8 started))))
    = g_Bucket_Stacks (state_of (xmalloc 8 8 started))
  ∧ ∃ h h',
      headers (state_of (xmalloc 8 8 started))
        !! (268455474 - 5 - load32 (state_of (xmalloc 8 8 started)) (268455474 - 5)) = Some h
      ∧ headers (state_of (xfree 268455474 (state_of (xmalloc 8 8 started))))
        = <[268455474 - 5 - load32 (state_of (xmalloc 8 8 started)) (268455474 - 5) := h']>
            (headers (state_of (xmalloc 8 8 started)))
      ∧ hsize h' = hsize h ∧ next_page h' = next_page h ∧ last_offset h' = last_offset h
      ∧ ∀ i, slot_taken h i = Some false → slot_taken h' i = Some false.
Proof.
  apply (xfree_bucket_keeps_chunks 268455474 (state_of (xmalloc 8 8 started))).
  - lia.
  - vm_compute. discriminate.
  - apply (returned_Ret _ tt). vm_compute. reflexivity.
Defined.

(** X10: [xfree] of a non-null pointer whose flag byte is neither 0xFF nor
    below 8 prints the diagnostic with the pointer and the flag and exits,
    in the state of the call. *)
Theorem xfree_bad_flag_exits (p : Z) (s : state) :
  p ≠ 0 → load8 s (p - 1) ≠ 0xFF → ¬ load8 s (p - 1) < 8 →
  xfree p s = Exit (arena_flag_error p (load8 s (p - 1))) s.
Proof.
  intros Hp Hff Harena. unfold xfree.
  destruct (Z.eqb_spec p 0) as [|_]; [contradiction|]. cbv zeta.
  unfold c_Non_Bucket_Flag.
  destruct (Z.eqb_spec (load8 s (p - 1)) 255) as [|_]; [contradiction|].
  destruct (Z.ltb_spec (load8 s (p - 1)) ARENA_NUM) as [|_]; [contradiction|].
  reflexivity.
Qed.

Lemma xfree_bad_flag_exits_witness :
  xfree 302009914 (store8 302009913 42 (state_of (xmalloc 8 16 started)))
  = Exit (arena_flag_error 302009914
            (load8 (store8 302009913 42 (state_of (xmalloc 8 16 started))) (302009914 - 1)))
         (store8 302009913 42 (state_of (xmalloc 8 16 started))).
Proof.
  apply (xfree_bad_flag_exits 302009914).
  - lia.
  - vm_compute. discriminate.
  - vm_compute. discriminate.
Defined.

(** ** A large block, allocated and freed *)

(** X11: a request above 8192 bytes whose rounded size fits a [size_t],
    served at a page-aligned address where nothing is mapped, followed by
    [xfree] of the pointer returned: both calls return, and the mappings,
    the chunk headers and the stacks are as before the allocation. *)
Theorem large_alloc_free_roundtrip (fuel : nat) (n : Z) (s : state) :
  BUCKET_MAX < n → n + 9 ≤ 2 ^ 64 - 4096 →
  next_map s ≠ 0 → next_map s mod SMALL_PAGE = 0 →
  mappings s !! next_map s = None → headers s !! next_map s = None →
  ∃ p s1 s2,
    xmalloc fuel n s = Ret p s1
    ∧ mappings s1 !! (p - 9) = Some (round_up_to_page (n + 9))
    ∧ xfree p s1 = Ret tt s2
    ∧ mappings s2 = mappings s
    ∧ headers s2 = headers s
    ∧ g_Bucket_Stacks s2 = g_Bucket_Stacks s.
Proof.
  intros Hn Hfit Hmap Hpage Hfree Hnone.
  destruct (mmap_non_bucket_layout n s Hn Hfit Hmap) as (s1 & Hret & Hlen & Hsize & Hflag).
  pose proof Hret as Hinv.
  apply mmap_non_bucket_inv in Hinv as (size & _ & _ & _ & Hmaps & Hheaders & Hstacks).
  pose proof (round_up_to_page_bounds (n + 9)) as [Hround _].
  unfold BUCKET_MAX in Hn. unfold SMALL_PAGE in Hround.
  assert (Hx : ∃ s2, xfree (next_map s + 9) s1 = Ret tt s2
                     ∧ mappings s2 = delete (next_map s) (mappings s1)
                     ∧ headers s2 = delete (next_map s) (headers s1)
                     ∧ g_Bucket_Stacks s2 = g_Bucket_Stacks s1).
  { unfold xfree. destruct (Z.eqb_spec (next_map s + 9) 0) as [H0|_];
      [unfold SMALL_PAGE in Hpage; Z.div_mod_to_equations; lia|]. cbv zeta.
    replace (next_map s + 9 - 1) with (next_map s + 8) by lia. rewrite Hflag.
    rewrite Z.eqb_refl. unfold c_Non_Bucket_Metadata_Size.
    replace (next_map s + 9 - 9) with (next_map s) by lia. rewrite Hsize.
    unfold munmap. rewrite Hpage. cbn [Z.eqb andb].
    destruct (Z.ltb_spec 0 (round_up_to_page (n + 9))) as [_|Hle]; [|lia].
    cbn [negb Z.eqb]. eexists. split; [reflexivity|]. auto. }
  destruct Hx as (s2 & Hxfree & Hm2 & Hh2 & Hs2).
  exists (next_map s + 9), s1, s2.
  replace (next_map s + 9 - 9) with (next_map s) by lia.
  split; [unfold xmalloc; destruct (Z.ltb_spec BUCKET_MAX n) as [_|Hle];
          [exact Hret|unfold BUCKET_MAX in Hle; lia]|].
  split; [exact Hlen|]. split; [exact Hxfree|].
  split; [rewrite Hm2, Hmaps, delete_insert_eq; apply delete_id; exact Hfree|].
  split; [rewrite Hh2, Hheaders; apply delete_id; exact Hnone|].
  rewrite Hs2. exact Hstacks.
Qed.

Lemma large_alloc_free_roundtrip_witness :
  ∃ p s1 s2,
    xmalloc 0 10000 started = Ret p s1
    ∧ mappings s1 !! (p - 9) = Some (round_up_to_page (10000 + 9))
    ∧ xfree p s1 = Ret tt s2
    ∧ mappings s2 = mappings started
    ∧ headers s2 = headers started
    ∧ g_Bucket_Stacks s2 = g_Bucket_Stacks started.
Proof.
  apply (large_alloc_free_roundtrip 0 10000 started).
  - unfold BUCKET_MAX. lia.
  - lia.
  - vm_compute. discriminate.
  - vm_compute. reflexivity.
  - vm_compute. reflexivity.
  - vm_compute. reflexivity.
Defined.

(** ** The bytes a resize carries over *)

Lemma xfree_mem (p : Z) (s s' : state) : xfree p s = Ret tt s' → mem s' = mem s.
Proof.
  unfold xfree. intros H. destruct (p =? 0); [injection H as <-; reflexivity|].
  cbv zeta in H. destruct (load8 s (p - 1) =? c_Non_Bucket_Flag).
  - unfold munmap in H. destruct (_ && _); cbn in H; [|discriminate].
    injection H as <-. reflexivity.
  - destruct (load8 s (p - 1) <? ARENA_NUM); [|discriminate].
    apply bind_Ret in H as (h & s1 & Hget & H).
    unfold get_header in Hget. destruct (headers s !! _); [|discriminate].
    injection Hget as -> <-.
    apply bind_Ret in H as ([] & s0 & Hassert & H).
    unfold assert in Hassert. destruct (_ <? _)%nat; [|discriminate].
    injection Hassert as <-.
    apply push_bucket_inv in H as (h1 & h' & _ & -> & _). reflexivity.
Qed.

Lemma memcpy_copies (dst src n i : Z) (s : state) :
  0 ≤ i < n → load8 (memcpy dst src n s) (dst + i) = load8 s (src + i).
Proof.
  intros Hi. unfold memcpy, load8 at 1. cbn [mem set_mem].
  assert (Hin : i ∈ seqZ 0 n) by (apply elem_of_seqZ; lia).
  generalize (mem s) at 1. revert Hin. generalize (seqZ 0 n) as l.
  induction l as [|j l IH] using rev_ind; intros Hin m.
  - apply elem_of_nil in Hin. contradiction.
  - rewrite foldl_app. cbn [foldl].
    destruct (Z.eq_dec j i) as [->|Hne].
    + apply read8_insert_eq.
    + rewrite read8_insert_ne by lia. apply IH.
      apply elem_of_app in Hin as [Hin|Hin]; [exact Hin|].
      apply list_elem_of_singleton in Hin. congruence.
Qed.

Lemma move_block_keeps_data (fuel : nat) (prev n len : Z) (s s' : state) (ptr i : Z) :
  reallocate fuel prev n len s = Ret ptr s' →
  0 ≤ i < len →
  prev + i < ptr - 9 ∨ ptr ≤ prev + i →
  load8 s' (ptr + i) = load8 s (prev + i).
Proof.
  unfold reallocate. intros H Hi Hout.
  apply bind_Ret in H as (q & s1 & Hmalloc & H).
  apply bind_Ret in H as ([] & s2 & Hcopy & H). injection Hcopy as <-.
  apply bind_Ret in H as ([] & s3 & Hfree & H). injection H as <- <-.
  apply xfree_mem in Hfree. unfold load8 at 1. rewrite Hfree.
  change (read8 (mem (memcpy q prev len s1)) (q + i))
    with (load8 (memcpy q prev len s1) (q + i)).
  rewrite memcpy_copies by exact Hi.
  apply (xmalloc_frame fuel n s s1 q); [exact Hmalloc|].
  destruct (BUCKET_MAX <? n); lia.
Qed.

(** X12: when [xrealloc] of a non-null pointer returns, each of the first
    [min n size] bytes at the returned pointer, [size] being the size read
    for the old block, equals the byte at the same place of the old block
    before the call, provided the old byte does not lie in the 9 bytes
    right before the returned pointer. *)
Theorem xrealloc_keeps_data (fuel : nat) (prev n : Z) (s s' : state) (ptr size i : Z) :
  prev ≠ 0 →
  stored_size s prev = Some size →
  xrealloc fuel prev n s = Ret ptr s' →
  0 ≤ i < Z.min n size →
  prev + i < ptr - 9 ∨ ptr ≤ prev + i →
  load8 s' (ptr + i) = load8 s (prev + i).
Proof.
  intros Hprev Hsize H Hi Hout. unfold xrealloc in H. unfold stored_size in Hsize.
  destruct (Z.eqb_spec prev 0) as [|_]; [contradiction|]. cbv zeta in H.
  destruct (load8 s (prev - 1) =? c_Non_Bucket_Flag).
  - injection Hsize as <-. unfold c_Non_Bucket_Metadata_Size in H.
    destruct (_ || _).
    + rewrite move_block_reallocate in H.
      apply (move_block_keeps_data fuel prev n _ s s' ptr i H Hi Hout).
    + injection H as <- <-. reflexivity.
  - destruct (load8 s (prev - 1) <? ARENA_NUM); [|discriminate].
    unfold c_Bucket_Metadata_Size in H.
    apply bind_Ret in H as (h & s1 & Hget & H).
    unfold get_header in Hget.
    destruct (headers s !! (prev - 5 - load32 s (prev - 5))) as [h0|]; [|discriminate].
    injection Hget as -> <-. injection Hsize as <-.
    destruct (_ || _).
    + rewrite move_block_reallocate in H.
      apply (move_block_keeps_data fuel prev n _ s s' ptr i H Hi Hout).
    + injection H as <- <-. reflexivity.
Qed.

Lemma xrealloc_keeps_data_witness :
  load8 (state_of (xrealloc 8 268455474 100
                     (store8 268455474 171 (state_of (xmalloc 8 8 started)))))
        (469782186 + 0)
  = load8 (store8 268455474 171 (state_of (xmalloc 8 8 started))) (268455474 + 0).
Proof.
  apply (xrealloc_keeps_data 8 268455474 100
           (store8 268455474 171 (state_of (xmalloc 8 8 started))) _ 469782186 8 0).
  - lia.
  - vm_compute. reflexivity.
  - apply returned_Ret. vm_compute. reflexivity.
  - lia.
  - left. lia.
Defined.

(** ** The bit a free clears *)

Lemma slot_cleared (h : page_header) (j : Z) :
  0 ≤ j < 64 * Z.of_nat (length (bitmap h)) →
  slot_taken (clear_bit h j) j = Some false.
Proof.
  intros Hj. unfold clear_bit.
  destruct (bitmap h !! Z.to_nat (j / 64)) as [w|] eqn:Hw.
  - unfold slot_taken. cbn [bitmap].
    rewrite list_lookup_insert_eq by (eapply lookup_lt_Some; exact Hw).
    rewrite Z.land_comm, Z.land_assoc.
    rewrite msb_shift by (Z.div_mod_to_equations; lia).
    assert (H0 : Z.land (2 ^ (63 - j mod 64)) (Z.land w (wrap64 (Z.lnot (2 ^ (63 - j mod 64)))))
                 = 0).
    { apply Z.bits_inj'. intros n Hn. rewrite !Z.land_spec, Z.bits_0.
      rewrite Z.pow2_bits_eqb by (Z.div_mod_to_equations; lia).
      destruct (Z.eqb_spec (63 - j mod 64) n) as [<-|_]; [|reflexivity].
      unfold wrap64. rewrite Z.mod_pow2_bits_low by (Z.div_mod_to_equations; lia).
      rewrite Z.lnot_spec by (Z.div_mod_to_equations; lia).
      rewrite Z.pow2_bits_eqb by (Z.div_mod_to_equations; lia).
      rewrite Z.eqb_refl. cbn. apply andb_false_r. }
    rewrite <- Z.land_assoc, H0. reflexivity.
  - apply lookup_ge_None in Hw. exfalso.
    assert (j / 64 < Z.of_nat (length (bitmap h))) by (Z.div_mod_to_equations; lia). lia.
Qed.

Lemma push_bucket_outside (bucket_i : nat) (bsize arena header addr : Z)
      (s : state) (h : page_header) :
  c_Bucket_Sizes !! bucket_i = Some bsize →
  headers s !! header = Some h →
  64 * Z.of_nat (length (bitmap h)) ≤ push_offset bsize header addr < 2 ^ 22 →
  push_bucket bucket_i arena header addr s = Undefined.
Proof.
  intros Hsize Hh Hj. unfold push_bucket, bind at 1, assert.
  assert (Hlt : (bucket_i < BUCKET_NUM)%nat).
  { apply lookup_lt_Some in Hsize. exact Hsize. }
  destruct (Nat.ltb_spec bucket_i BUCKET_NUM) as [_|Hge]; [|lia].
  rewrite Hsize. cbv zeta.
  set (j := push_offset bsize header addr) in *.
  unfold bind, get_header. rewrite Hh.
  assert (Hword : wrap16 (j / 64) = j / 64).
  { unfold wrap16. apply Z.mod_small. Z.div_mod_to_equations. lia. }
  rewrite Hword.
  destruct (bitmap h !! Z.to_nat (j / 64)) as [w|] eqn:Hw; [|reflexivity].
  apply lookup_lt_Some in Hw. exfalso.
  assert (Z.of_nat (length (bitmap h)) ≤ j / 64) by (Z.div_mod_to_equations; lia). lia.
Qed.

Lemma xfree_pushes (s : state) (header k bsize : Z) (c : nat) (h : page_header) :
  stamped s header bsize k →
  headers s !! header = Some h →
  c_Bucket_Sizes !! c = Some bsize → parse_header_size (hsize h) = bsize →
  0 ≤ k < 64 * Z.of_nat BITMAP_LONGS →
  xfree (slot_address header bsize k) s
  = push_bucket c (load8 s (slot_address header bsize k - 1)) header
      (slot_address header bsize k - 5) s
  ∧ push_offset bsize header (slot_address header bsize k - 5) = k + push_miss bsize
  ∧ 4 ≤ push_miss bsize ≤ 40000.
Proof.
  intros (Hp & Hflag & Hoff) Hh Hc Hdec Hk.
  assert (Hb : BUCKET_MIN ≤ bsize ≤ BUCKET_MAX).
  { apply bucket_size_bounds. apply list_elem_of_lookup. eauto. }
  unfold BUCKET_MIN, BUCKET_MAX in Hb. unfold ARENA_NUM in Hflag.
  change (Z.of_nat BITMAP_LONGS) with 2497 in Hk.
  destruct (size_loop_index c bsize Hc) as [Hloop Hlt].
  set (p := slot_address header bsize k) in *.
  assert (Hprod : 0 ≤ k * (bsize + 5) ≤ 159807 * 8197).
  { split; [apply Z.mul_nonneg_nonneg; lia|apply Z.mul_le_mono_nonneg; lia]. }
  split; [|split].
  - unfold xfree. destruct (Z.eqb_spec p 0) as [H0|_]; [contradiction|].
    cbv zeta. unfold c_Non_Bucket_Flag, c_Bucket_Metadata_Size.
    destruct (Z.eqb_spec (load8 s (p - 1)) 255) as [Hff|_]; [lia|].
    destruct (Z.ltb_spec (load8 s (p - 1)) ARENA_NUM) as [_|Hge];
      [|unfold ARENA_NUM in Hge; lia].
    rewrite Hoff. replace (p - 5 - (p - 5 - header)) with header by lia.
    unfold bind at 1, get_header. rewrite Hh, Hdec, Hloop.
    unfold bind at 1, assert. destruct (Nat.ltb_spec c BUCKET_NUM) as [_|Hge]; [|lia].
    reflexivity.
  - unfold p, slot_address, push_miss.
    replace (header + sizeof_page_header + k * (bsize + 5) + 5 - 5)
      with (header + sizeof_page_header + k * (bsize + 5)) by lia.
    apply push_offset_of_slot; [lia|lia|]. change sizeof_page_header with 20000. lia.
  - unfold push_miss. change sizeof_page_header with 20000.
    split; [apply Z.div_le_lower_bound; lia|apply Z.div_le_upper_bound; lia].
Qed.

(** X13: [xfree] of the pointer of slot [k] of a chunk, stamped as
    [pop_bucket] stamps it, aims at the bit of slot
    [k + 2 * sizeof(page_header) / stride], at least 4 slots further.
    When that slot is inside the bitmap of the header, [xfree] returns,
    that bit is clear afterwards and every other bit, the bit of slot [k]
    among them, is as before.  When it is past the end of the bitmap, the
    word written is outside the array [bitmap] of the header: the
    behaviour is undefined. *)
Theorem xfree_clears_shifted_bit (s : state) (header k bsize : Z) (c : nat) (h : page_header) :
  stamped s header bsize k →
  headers s !! header = Some h →
  c_Bucket_Sizes !! c = Some bsize → parse_header_size (hsize h) = bsize →
  0 ≤ k < 64 * Z.of_nat BITMAP_LONGS →
  4 ≤ push_miss bsize
  ∧ (k + push_miss bsize < 64 * Z.of_nat (length (bitmap h)) →
     ∃ s' h',
       xfree (slot_address header bsize k) s = Ret tt s'
       ∧ headers s' !! header = Some h'
       ∧ slot_taken h' (k + push_miss bsize) = Some false
       ∧ ∀ i, 0 ≤ i → i ≠ k + push_miss bsize → slot_taken h' i = slot_taken h i)
  ∧ (64 * Z.of_nat (length (bitmap h)) ≤ k + push_miss bsize →
     xfree (slot_address header bsize k) s = Undefined).
Proof.
  intros Hst Hh Hc Hdec Hk.
  destruct (xfree_pushes s header k bsize c h Hst Hh Hc Hdec Hk) as (Hfree & Hpush & Hdelta).
  change (Z.of_nat BITMAP_LONGS) with 2497 in Hk.
  split; [lia|]. split.
  - intros Hlen. eexists _, _.
    split; [apply (xfree_slot s header k bsize c h); assumption|].
    split; [simpl; apply lookup_insert_eq|].
    split; [apply slot_cleared; lia|].
    intros i Hi Hne. apply slot_taken_clear_bit; lia.
  - intros Hlen. rewrite Hfree.
    apply (push_bucket_outside c bsize _ header _ s h Hc Hh). rewrite Hpush. lia.
Qed.

Lemma xfree_clears_shifted_bit_witness :
  ∃ s' h',
    xfree (slot_address 268435456 8 1) (state_of (xmalloc 8 8 started)) = Ret tt s'
    ∧ headers s' !! 268435456 = Some h'
    ∧ slot_taken h' (1 + push_miss 8) = Some false
    ∧ ∀ i, 0 ≤ i → i ≠ 1 + push_miss 8 →
           slot_taken h' i
           = slot_taken (mk_header 3 0 1 (<[0%nat := 0x4000000000000000]>
                                            (replicate BITMAP_LONGS 0))) i.
Proof.
  refine (proj1 (proj2 (xfree_clears_shifted_bit
                          (state_of (xmalloc 8 8 started)) 268435456 1 8 0
                          (mk_header 3 0 1 (<[0%nat := 0x4000000000000000]>
                                              (replicate BITMAP_LONGS 0)))
                          _ _ _ _ _)) _).
  - apply stampedb_true. vm_compute. reflexivity.
  - vm_compute. reflexivity.
  - reflexivity.
  - vm_compute. reflexivity.
  - vm_compute. split; [discriminate|reflexivity].
  - vm_compute. reflexivity.
Defined.

(** ** Resizing a large block, as the code decides *)



(** ** Teardown *)

Lemma chain_agree (s s1 : state) (header : Z) (l : list Z) :
  chain s header l →
  (∀ a, a ∈ l → headers s1 !! a = headers s !! a) →
  chain s1 header l.
Proof.
  induction 1 as [|header h l Hne Hh Hchain IH]; intros Hsame; [constructor|].
  apply (chain_page s1 header h); [exact Hne| |].
  - rewrite Hsame by left. exact Hh.
  - apply IH. intros a Ha. apply Hsame. right. exact Ha.
Qed.

Lemma delete_step {V} (m m' : gmap Z V) (x : Z) (l : list Z) :
  (∀ a, m' !! a = if decide (a ∈ l) then None else delete x m !! a) →
  ∀ a, m' !! a = if decide (a ∈ x :: l) then None else m !! a.
Proof.
  intros H a. rewrite H.
  destruct (decide (a ∈ l)) as [Hin|Hout], (decide (a ∈ x :: l)) as [Hin'|Hout'];
    try reflexivity.
  - exfalso. apply Hout'. right. exact Hin.
  - apply elem_of_cons in Hin' as [->|Hin']; first [apply lookup_delete_eq|contradiction].
  - apply lookup_delete_ne. intros ->. apply Hout'. left.
Qed.

(** The effect of the teardown loop on a stack whose pages are [l]. *)
Lemma free_pages_chain (mmap_size : Z) (l : list Z) :
  0 < mmap_size →
  ∀ (fuel : nat) (s : state) (header : Z) (printed : nat),
    chain s header l → NoDup l → Forall (λ a, a mod SMALL_PAGE = 0) l →
    (length l < fuel)%nat →
    ∃ s', free_pages fuel mmap_size header printed s = Ret printed s'
          ∧ (∀ a, headers s' !! a = if decide (a ∈ l) then None else headers s !! a)
          ∧ (∀ a, mappings s' !! a = if decide (a ∈ l) then None else mappings s !! a)
          ∧ mem s' = mem s
          ∧ g_Bucket_Stacks s' = g_Bucket_Stacks s.
Proof.
  intros Hsize. induction l as [|x l IH]; intros fuel s header printed Hchain Hnodup Hpages Hfuel.
  - inversion Hchain; subst. destruct fuel as [|fuel]; [simpl in Hfuel; lia|].
    exists s. split; [reflexivity|]. repeat split; intros a; reflexivity.
  - inversion Hchain as [|header' h l' Hne Hh Hrest]; subst.
    apply NoDup_cons in Hnodup as [Hnotin Hnodup].
    apply Forall_cons in Hpages as [Hpage Hpages].
    destruct fuel as [|fuel]; [simpl in Hfuel; lia|]. cbn [free_pages].
    destruct (Z.eqb_spec x 0) as [|_]; [contradiction|].
    rewrite (bind_eq _ _ _ _ _ (get_header_eq x h s Hh)).
    unfold munmap. rewrite Hpage. cbn [Z.eqb andb].
    destruct (Z.ltb_spec 0 mmap_size) as [_|Hle]; [|lia]. cbn [negb Z.eqb].
    set (s1 := mk_state _ _ _ _ _ _).
    destruct (IH fuel s1 (next_page h) printed) as (s' & Hrun & Hheaders & Hmaps & Hmem & Hstacks).
    + apply (chain_agree s); [exact Hrest|]. intros a Ha. unfold s1. cbn [headers].
      apply lookup_delete_ne. intros ->. contradiction.
    + exact Hnodup.
    + exact Hpages.
    + simpl in Hfuel. lia.
    + exists s'. split; [exact Hrun|].
      split; [apply delete_step; exact Hheaders|].
      split; [apply delete_step; exact Hmaps|]. split; [exact Hmem|exact Hstacks].
Qed.

Lemma chunks_entry (b : nat) :
  (b < BUCKET_NUM)%nat → ∃ chunks, c_MMAP_Chunks !! b = Some chunks ∧ 0 < chunks * ALLOC_CHUNK.
Proof.
  intros Hb. unfold BUCKET_NUM in Hb.
  do 21 (destruct b as [|b]; [eexists; split; reflexivity|]). lia.
Qed.

Lemma unmapped_step (gone l : list Z) (s s1 s2 : state) :
  unmapped gone s s1 →
  g_Bucket_Stacks s2 = g_Bucket_Stacks s1 → mem s2 = mem s1 →
  (∀ a, headers s2 !! a = if decide (a ∈ l) then None else headers s1 !! a) →
  (∀ a, mappings s2 !! a = if decide (a ∈ l) then None else mappings s1 !! a) →
  unmapped (gone ++ l) s s2.
Proof.
  intros (Hstacks & Hmem & Hheaders & Hmaps) Hstacks2 Hmem2 Hheaders2 Hmaps2.
  split; [congruence|]. split; [congruence|]. split; intros a.
  - rewrite Hheaders2, Hheaders.
    destruct (decide (a ∈ l)), (decide (a ∈ gone)), (decide (a ∈ gone ++ l)) as [Hin|Hout];
      try reflexivity; try (exfalso; apply Hout; apply elem_of_app; auto; fail).
    apply elem_of_app in Hin as [|]; contradiction.
  - rewrite Hmaps2, Hmaps.
    destruct (decide (a ∈ l)), (decide (a ∈ gone)), (decide (a ∈ gone ++ l)) as [Hin|Hout];
      try reflexivity; try (exfalso; apply Hout; apply elem_of_app; auto; fail).
    apply elem_of_app in Hin as [|]; contradiction.
Qed.

Section Teardown.
Variable fuel : nat.
Variable pages : nat → Z → list Z.
Variable s : state.

Lemma free_arenas (b : nat) (chunks : Z) (arenas : list Z) :
  c_MMAP_Chunks !! b = Some chunks → 0 < chunks * ALLOC_CHUNK →
  ∀ (gone : list Z) (s1 : state),
    unmapped gone s s1 →
    Forall (stack_ok fuel pages s b) arenas →
    NoDup (gone ++ pages_of_bucket pages arenas b) →
    ∃ s2, sum_each arenas (λ arena_index s0,
              match c_MMAP_Chunks !! b with
              | Some chunks0 =>
                  free_pages fuel (chunks0 * ALLOC_CHUNK) (stack_head s0 b arena_index) O s0
              | None => Undefined
              end) s1 = Ret O s2
          ∧ unmapped (gone ++ pages_of_bucket pages arenas b) s s2.
Proof.
  intros Hchunks Hpos. induction arenas as [|a arenas IH]; intros gone s1 Hun Hok Hnodup.
  - exists s1. split; [reflexivity|]. unfold pages_of_bucket. cbn.
    rewrite app_nil_r. exact Hun.
  - apply Forall_cons in Hok as [(Hchain & Hfuel & Hpages) Hok].
    unfold pages_of_bucket in *. cbn [map concat] in *.
    rewrite app_assoc in Hnodup.
    pose proof Hnodup as Hnodup'. apply NoDup_app in Hnodup' as (Hfront & _ & _).
    apply NoDup_app in Hfront as (_ & Hdisj & Hnd).
    destruct Hun as (Hstacks & Hmem & Hheaders & Hmaps).
    destruct (free_pages_chain (chunks * ALLOC_CHUNK) (pages b a) Hpos fuel s1
                (stack_head s b a) O) as (s2 & Hrun & Hheaders2 & Hmaps2 & Hmem2 & Hstacks2);
      [|exact Hnd|exact Hpages|exact Hfuel|].
    { apply (chain_agree s); [exact Hchain|]. intros x Hx. rewrite Hheaders.
      rewrite decide_False; [reflexivity|]. intros Hin. exact (Hdisj x Hin Hx). }
    destruct (IH (gone ++ pages b a) s2) as (s3 & Hrest & Hun3);
      [|exact Hok|exact Hnodup|].
    { apply (unmapped_step gone (pages b a) s s1 s2); [|assumption..].
      split; [exact Hstacks|]. split; [exact Hmem|]. split; assumption. }
    exists s3. split; [|rewrite app_assoc; exact Hun3].
    cbn [sum_each]. rewrite Hchunks.
    assert (Hhead : stack_head s1 b a = stack_head s b a)
      by (unfold stack_head; rewrite Hstacks; reflexivity).
    erewrite bind_eq; [|rewrite Hhead; exact Hrun].
    rewrite Hchunks in Hrest. erewrite bind_eq; [|exact Hrest]. reflexivity.
Qed.

Lemma free_buckets (buckets : list nat) (arenas : list Z) :
  ∀ (gone : list Z) (s1 : state),
    unmapped gone s s1 →
    Forall (λ b, (b < BUCKET_NUM)%nat ∧ Forall (stack_ok fuel pages s b) arenas) buckets →
    NoDup (gone ++ all_pages pages buckets arenas) →
    ∃ s2, sum_each buckets (λ bucket_index,
            sum_each arenas (λ arena_index s0,
              match c_MMAP_Chunks !! bucket_index with
              | Some chunks0 =>
                  free_pages fuel (chunks0 * ALLOC_CHUNK)
                    (stack_head s0 bucket_index arena_index) O s0
              | None => Undefined
              end)) s1 = Ret O s2
          ∧ unmapped (gone ++ all_pages pages buckets arenas) s s2.
Proof.
  induction buckets as [|b buckets IH]; intros gone s1 Hun Hok Hnodup.
  - exists s1. split; [reflexivity|]. unfold all_pages. cbn.
    rewrite app_nil_r. exact Hun.
  - apply Forall_cons in Hok as [(Hb & Hstacks) Hok].
    unfold all_pages in *. cbn [map concat] in *.
    rewrite app_assoc in Hnodup.
    pose proof Hnodup as Hnodup'. apply NoDup_app in Hnodup' as (Hfront & _ & _).
    destruct (chunks_entry b Hb) as (chunks & Hchunks & Hpos).
    destruct (free_arenas b chunks arenas Hchunks Hpos gone s1 Hun Hstacks Hfront)
      as (s2 & Hrun & Hun2).
    destruct (IH _ s2 Hun2 Hok Hnodup) as (s3 & Hrest & Hun3).
    exists s3. split; [|rewrite app_assoc; exact Hun3].
    cbn [sum_each]. erewrite bind_eq; [|exact Hrun].
    erewrite bind_eq; [|exact Hrest]. reflexivity.
Qed.
End Teardown.

(** X15: if every stack is a chain of page-aligned chunks, shorter than the
    fuel, and no chunk is on two stacks or twice on one, then
    [free_all_buckets] returns without printing an error, and afterwards
    exactly the chunks of the stacks are unmapped: their mappings and
    headers are gone, all other mappings and headers, the memory bytes and
    the stack heads are as before. *)
Theorem free_all_buckets_unmaps (fuel : nat) (pages : nat → Z → list Z) (s : state) :
  Forall (λ b, Forall (stack_ok fuel pages s b) (seqZ 0 ARENA_NUM)) (seq 0 BUCKET_NUM) →
  NoDup (all_pages pages (seq 0 BUCKET_NUM) (seqZ 0 ARENA_NUM)) →
  ∃ s', free_all_buckets fuel s = Ret O s'
        ∧ unmapped (all_pages pages (seq 0 BUCKET_NUM) (seqZ 0 ARENA_NUM)) s s'.
Proof.
  intros Hok Hnodup.
  destruct (free_buckets fuel pages s (seq 0 BUCKET_NUM) (seqZ 0 ARENA_NUM) [] s)
    as (s' & Hrun & Hun).
  - split; [reflexivity|]. split; [reflexivity|]. split; intros a; reflexivity.
  - apply Forall_forall. intros b Hb. split.
    + apply elem_of_seq in Hb. unfold BUCKET_NUM in *. lia.
    + rewrite Forall_forall in Hok. apply Hok. exact Hb.
  - exact Hnodup.
  - exists s'. split; [exact Hrun|exact Hun].
Qed.

Lemma one_page_stack_ok (s : state) (b : nat) (a : Z) :
  one_page_stack s b a = true → stack_ok 2 (λ b a, [stack_head s b a]) s b a.
Proof.
  unfold one_page_stack, stack_ok. intros H.
  destruct (headers s !! stack_head s b a) as [h|] eqn:Hh; [|discriminate].
  apply andb_true_iff in H as [H Hpage]. apply andb_true_iff in H as [Hne Hnext].
  apply Z.eqb_eq in Hpage, Hnext. split; [|split].
  - apply (chain_page s _ h); [|exact Hh|rewrite Hnext; constructor].
    intros H0. rewrite H0 in Hne. discriminate.
  - simpl. lia.
  - apply Forall_cons. split; [exact Hpage|apply Forall_nil; constructor].
Qed.

Lemma free_all_buckets_unmaps_witness :
  ∃ s', free_all_buckets 2 started = Ret O s'
        ∧ unmapped (all_pages (λ b a, [stack_head started b a])
                      (seq 0 BUCKET_NUM) (seqZ 0 ARENA_NUM)) started s'.
Proof.
  apply (free_all_buckets_unmaps 2 (λ b a, [stack_head started b a]) started).
  - assert (Hall : forallb (λ b, forallb (one_page_stack started b) (seqZ 0 ARENA_NUM))
                     (seq 0 BUCKET_NUM) = true) by (vm_compute; reflexivity).
    apply Forall_forall. intros b Hb. apply Forall_forall. intros a Ha.
    apply one_page_stack_ok.
    rewrite forallb_forall in Hall. apply list_elem_of_In, Hall in Hb.
    rewrite forallb_forall in Hb. apply Hb, list_elem_of_In. exact Ha.
  - apply (bool_decide_unpack _). vm_compute. exact I.
Defined.

(** ** Constructor *)

Lemma initialize_step (b : nat) (a : Z) (done : list (nat * Z)) (s s1 : state) :
  (b < BUCKET_NUM)%nat → (b, a) ∉ done → built done s s1 →
  ∃ s2, (header <~ mmap_bucket b ;
         h <~ get_header header ;
         (λ s, put_header header
                 (mk_header (hsize h) (stack_head s b a) (last_offset h) (bitmap h)) s) ;;
         modify (set_stack b a header)) s1 = Ret tt s2
        ∧ built (done ++ [(b, a)]) s s2.
Proof.
  intros Hb Hnew (Hpos & Hle & Hal & Hmem & Hrest & Hfresh & Hinj).
  destruct (lookup_lt_is_Some_2 c_Bucket_Sizes b) as [bsize Hsize]; [exact Hb|].
  destruct (table_entry b bsize Hsize)
    as (_ & chunks & enc & Hchunks & Hlen & _ & Hgen & Hdec & _).
  pose proof (round_up_to_page_bounds (chunks * ALLOC_CHUNK)) as [[Hround _] Hmult].
  set (h0 := mk_header enc 0 0 (replicate BITMAP_LONGS 0)).
  set (hd := mk_header enc (stack_head s1 b a) 0 (replicate BITMAP_LONGS 0)).
  set (s2 := set_stack b a (next_map s1)
               (set_headers <[next_map s1 := hd]>
                  (set_headers <[next_map s1 := h0]> (snd (mmap (chunks * ALLOC_CHUNK) s1))))).
  assert (Hrun : (header <~ mmap_bucket b ;
                  h <~ get_header header ;
                  (λ s, put_header header
                          (mk_header (hsize h) (stack_head s b a) (last_offset h) (bitmap h)) s) ;;
                  modify (set_stack b a header)) s1 = Ret tt s2).
  { erewrite bind_eq; [|apply (mmap_bucket_eq b chunks bsize enc); [assumption..|lia]].
    erewrite bind_eq; [|apply get_header_eq; apply lookup_insert_eq].
    reflexivity. }
  assert (Hnext2 : next_map s2 = next_map s1 + round_up_to_page (chunks * ALLOC_CHUNK))
    by reflexivity.
  assert (Hmem2 : mem s2 = mem s1) by reflexivity.
  assert (Hstacks2 : g_Bucket_Stacks s2 = <[(b, a) := next_map s1]> (g_Bucket_Stacks s1))
    by reflexivity.
  assert (Hheaders2 : headers s2 = <[next_map s1 := hd]> (<[next_map s1 := h0]> (headers s1)))
    by reflexivity.
  assert (Hmaps2 : mappings s2 = <[next_map s1 := chunks * ALLOC_CHUNK]> (mappings s1))
    by reflexivity.
  clearbody s2.
  assert (Hold : stack_head s1 b a = stack_head s b a)
    by (unfold stack_head; rewrite (Hrest _ Hnew); reflexivity).
  assert (Hhead : ∀ b0 a0, (b0, a0) ∈ done →
            stack_head s2 b0 a0 = stack_head s1 b0 a0 ∧ stack_head s1 b0 a0 < next_map s1).
  { intros b0 a0 Hin. split.
    - unfold stack_head. rewrite Hstacks2.
      rewrite lookup_insert_ne; [reflexivity|]. intros Heq. rewrite Heq in Hnew.
      exact (Hnew Hin).
    - destruct (Hfresh b0 a0 Hin) as (h & bs & ch & _ & _ & _ & Hrange & _). lia. }
  assert (Hlast : stack_head s2 b a = next_map s1).
  { unfold stack_head. rewrite Hstacks2, lookup_insert_eq. reflexivity. }
  exists s2. split; [exact Hrun|]. unfold built.
  split; [lia|]. split; [lia|].
  split; [rewrite Hnext2; unfold SMALL_PAGE in *; Z.div_mod_to_equations; lia|].
  split; [congruence|]. split; [|split].
  - intros p Hp. rewrite Hstacks2.
    rewrite lookup_insert_ne; [|intros <-; apply Hp, elem_of_app; right; left].
    apply Hrest. intros Hin. apply Hp, elem_of_app. left. exact Hin.
  - intros b0 a0 Hin. apply elem_of_app in Hin as [Hin|Hin].
    + destruct (Hfresh b0 a0 Hin)
        as (h & bs & ch & Hbs & Hch & Hmp & Hrange & Hpg & Hh & Hp & Hn & Hl & Hbm).
      destruct (Hhead _ _ Hin) as [Hsame Hlt].
      exists h, bs, ch. rewrite Hsame. split; [exact Hbs|]. split; [exact Hch|].
      split; [rewrite Hmaps2, lookup_insert_ne by lia; exact Hmp|]. split; [lia|].
      split; [exact Hpg|]. split; [|auto]. rewrite Hheaders2, !lookup_insert_ne by lia. exact Hh.
    + apply list_elem_of_singleton in Hin. injection Hin as -> ->.
      exists hd, bsize, chunks. rewrite Hlast. split; [exact Hsize|].
      split; [exact Hchunks|]. split; [rewrite Hmaps2; apply lookup_insert_eq|].
      split; [lia|].
      split; [exact Hal|].
      split; [rewrite Hheaders2; apply lookup_insert_eq|].
      split; [exact Hdec|]. split; [exact Hold|]. split; reflexivity.
  - intros b0 a0 b' a' Hin Hin' Heq.
    apply elem_of_app in Hin as [Hin|Hin], Hin' as [Hin'|Hin'].
    + destruct (Hhead _ _ Hin) as [E1 _], (Hhead _ _ Hin') as [E2 _].
      rewrite E1, E2 in Heq. exact (Hinj _ _ _ _ Hin Hin' Heq).
    + apply list_elem_of_singleton in Hin'. injection Hin' as -> ->.
      destruct (Hhead _ _ Hin) as [E1 Hlt]. rewrite E1, Hlast in Heq. lia.
    + apply list_elem_of_singleton in Hin. injection Hin as -> ->.
      destruct (Hhead _ _ Hin') as [E1 Hlt]. rewrite E1, Hlast in Heq. lia.
    + apply list_elem_of_singleton in Hin, Hin'. congruence.
Qed.

Lemma initialize_arenas (b : nat) (s : state) (arenas : list Z) :
  (b < BUCKET_NUM)%nat →
  ∀ (done : list (nat * Z)) (s1 : state),
    built done s s1 → NoDup (done ++ map (pair b) arenas) →
    ∃ s2, for_each arenas (λ arena_index,
            header <~ mmap_bucket b ;
            h <~ get_header header ;
            (λ s, put_header header
                    (mk_header (hsize h) (stack_head s b arena_index)
                       (last_offset h) (bitmap h)) s) ;;
            modify (set_stack b arena_index header)) s1 = Ret tt s2
          ∧ built (done ++ map (pair b) arenas) s s2.
Proof.
  intros Hb. induction arenas as [|a arenas IH]; intros done s1 Hbuilt Hnodup.
  - exists s1. split; [reflexivity|]. cbn. rewrite app_nil_r. exact Hbuilt.
  - cbn [map] in *.
    assert (Hnew : (b, a) ∉ done).
    { apply NoDup_app in Hnodup as (_ & Hdisj & _). intros Hin.
      apply (Hdisj _ Hin). left. }
    destruct (initialize_step b a done s s1 Hb Hnew Hbuilt) as (s2 & Hrun & Hbuilt2).
    replace (done ++ (b, a) :: map (pair b) arenas)
      with ((done ++ [(b, a)]) ++ map (pair b) arenas) in *
      by (rewrite <- app_assoc; reflexivity).
    destruct (IH _ s2 Hbuilt2 Hnodup) as (s3 & Hrest & Hbuilt3).
    exists s3. split; [|exact Hbuilt3].
    cbn [for_each]. erewrite bind_eq; [|exact Hrun]. exact Hrest.
Qed.

Lemma initialize_buckets (s : state) (arenas : list Z) (buckets : list nat) :
  Forall (λ b, (b < BUCKET_NUM)%nat) buckets →
  ∀ (done : list (nat * Z)) (s1 : state),
    built done s s1 → NoDup (done ++ stacks_of buckets arenas) →
    ∃ s2, for_each buckets (λ bucket_index,
            for_each arenas (λ arena_index,
              header <~ mmap_bucket bucket_index ;
              h <~ get_header header ;
              (λ s, put_header header
                      (mk_header (hsize h) (stack_head s bucket_index arena_index)
                         (last_offset h) (bitmap h)) s) ;;
              modify (set_stack bucket_index arena_index header))) s1 = Ret tt s2
          ∧ built (done ++ stacks_of buckets arenas) s s2.
Proof.
  induction buckets as [|b buckets IH]; intros Hlt done s1 Hbuilt Hnodup.
  - exists s1. split; [reflexivity|]. unfold stacks_of. cbn.
    rewrite app_nil_r. exact Hbuilt.
  - apply Forall_cons in Hlt as [Hb Hlt].
    unfold stacks_of in *. cbn [map concat] in *. rewrite app_assoc in Hnodup.
    pose proof Hnodup as Hnodup'. apply NoDup_app in Hnodup' as (Hfront & _ & _).
    destruct (initialize_arenas b s arenas Hb done s1 Hbuilt Hfront) as (s2 & Hrun & Hbuilt2).
    destruct (IH Hlt _ s2 Hbuilt2 Hnodup) as (s3 & Hrest & Hbuilt3).
    exists s3. split; [|rewrite app_assoc; exact Hbuilt3].
    cbn [for_each]. erewrite bind_eq; [|exact Hrun]. exact Hrest.
Qed.

Lemma stacks_of_all (b : nat) (a : Z) :
  (b < BUCKET_NUM)%nat → 0 ≤ a < ARENA_NUM →
  (b, a) ∈ stacks_of (seq 0 BUCKET_NUM) (seqZ 0 ARENA_NUM).
Proof.
  intros Hb Ha. unfold stacks_of. apply list_elem_of_In, in_concat.
  exists (map (pair b) (seqZ 0 ARENA_NUM)). split.
  - apply in_map_iff. exists b. split; [reflexivity|].
    apply in_seq. unfold BUCKET_NUM in *. lia.
  - apply in_map_iff. exists a. split; [reflexivity|].
    apply list_elem_of_In, elem_of_seqZ. lia.
Qed.

Lemma initialize_mutexes_run (s : state) :
  0 < next_map s →
  ∃ s', initialize_mutexes s = Ret tt s'
        ∧ built (stacks_of (seq 0 BUCKET_NUM) (seqZ 0 ARENA_NUM)) s s'.
Proof.
  intros Hpos.
  destruct (initialize_buckets s (seqZ 0 ARENA_NUM) (seq 0 BUCKET_NUM))
    with (done := @nil (nat * Z)) (s1 := s) as (s' & Hrun & Hbuilt).
  - apply Forall_forall. intros b Hb. apply elem_of_seq in Hb. unfold BUCKET_NUM in *. lia.
  - unfold built. split; [exact Hpos|]. split; [lia|].
    split; [rewrite Z.sub_diag; reflexivity|]. split; [reflexivity|].
    split; [reflexivity|]. split; intros; exfalso; eapply not_elem_of_nil; eassumption.
  - cbn [app]. apply (bool_decide_unpack _). vm_compute. exact I.
  - exists s'. split; [|exact Hbuilt].
    unfold initialize_mutexes. erewrite bind_eq; [exact Hrun|reflexivity].
Qed.

(** X16: started with a next mapping address above 0, the constructor
    returns; it maps one chunk of the bucket's chunk length for each of the
    21 x 8 stacks, a whole number of pages above that address, and makes
    it the head: the chunk's header encodes the bucket's size, links to
    the stack's former head, has cursor 0 and a clear bitmap.  No two
    stacks get the same chunk, and the payload bytes are as before. *)
Theorem initialize_mutexes_builds_stacks (s : state) :
  0 < next_map s →
  ∃ s', initialize_mutexes s = Ret tt s'
        ∧ mem s' = mem s
        ∧ (∀ b a, (b < BUCKET_NUM)%nat → 0 ≤ a < ARENA_NUM → fresh_head s s' b a)
        ∧ (∀ b a b' a', (b < BUCKET_NUM)%nat → 0 ≤ a < ARENA_NUM →
             (b' < BUCKET_NUM)%nat → 0 ≤ a' < ARENA_NUM →
             stack_head s' b a = stack_head s' b' a' → b = b' ∧ a = a').
Proof.
  intros Hpos.
  destruct (initialize_mutexes_run s Hpos)
    as (s' & Hrun & (_ & _ & _ & Hmem & _ & Hfresh & Hinj)).
  exists s'. split; [exact Hrun|]. split; [exact Hmem|]. split.
  - intros b a Hb Ha. apply Hfresh, stacks_of_all; assumption.
  - intros b a b' a' Hb Ha Hb' Ha' Heq.
    assert (E : (b, a) = (b', a')) by (apply Hinj; auto using stacks_of_all).
    injection E as -> ->. split; reflexivity.
Qed.

Lemma initialize_mutexes_builds_stacks_witness :
  ∃ s', initialize_mutexes boot = Ret tt s'
        ∧ mem s' = mem boot
        ∧ (∀ b a, (b < BUCKET_NUM)%nat → 0 ≤ a < ARENA_NUM → fresh_head boot s' b a)
        ∧ (∀ b a b' a', (b < BUCKET_NUM)%nat → 0 ≤ a < ARENA_NUM →
             (b' < BUCKET_NUM)%nat → 0 ≤ a' < ARENA_NUM →
             stack_head s' b a = stack_head s' b' a' → b = b' ∧ a = a').
Proof. apply (initialize_mutexes_builds_stacks boot). reflexivity. Defined.

Lemma all_pages_heads (s : state) (arenas : list Z) (buckets : list nat) :
  all_pages (λ b a, [stack_head s b a]) buckets arenas
  = map (λ p, stack_head s p.1 p.2) (stacks_of buckets arenas).
Proof.
  unfold all_pages, stacks_of, pages_of_bucket.
  induction buckets as [|b buckets IH]; [reflexivity|].
  cbn [map concat]. rewrite map_app, IH. f_equal.
  clear IH. induction arenas as [|a arenas IH]; [reflexivity|].
  cbn [map concat app]. rewrite IH. reflexivity.
Qed.

(** X17: from a state whose stacks are all empty and whose next mapping
    address is a positive multiple of the page size, the constructor
    followed by the destructor returns without an error message, and no
    chunk of the constructor is mapped afterwards; the stacks still hold
    the addresses of the chunks. *)
Theorem constructor_then_destructor (s : state) :
  0 < next_map s → next_map s mod SMALL_PAGE = 0 →
  (∀ b a, stack_head s b a = 0) →
  ∃ s1 s2, initialize_mutexes s = Ret tt s1
           ∧ free_all_buckets 2 s1 = Ret O s2
           ∧ g_Bucket_Stacks s2 = g_Bucket_Stacks s1
           ∧ ∀ b a, (b < BUCKET_NUM)%nat → 0 ≤ a < ARENA_NUM →
               stack_head s1 b a ≠ 0
               ∧ is_Some (mappings s1 !! stack_head s1 b a)
               ∧ mappings s2 !! stack_head s1 b a = None
               ∧ headers s2 !! stack_head s1 b a = None.
Proof.
  intros Hpos Hpage Hempty.
  destruct (initialize_mutexes_run s Hpos)
    as (s1 & Hrun & (_ & _ & _ & _ & _ & Hfresh & Hinj)).
  set (pages := λ b a, [stack_head s1 b a]).
  destruct (free_buckets 2 pages s1 (seq 0 BUCKET_NUM) (seqZ 0 ARENA_NUM) [] s1)
    as (s2 & Hfree & (Hstacks & _ & Hheaders & Hmaps)).
  - split; [reflexivity|]. split; [reflexivity|]. split; intros a; reflexivity.
  - apply Forall_forall. intros b Hb. apply elem_of_seq in Hb.
    split; [lia|]. apply Forall_forall. intros a Ha. apply elem_of_seqZ in Ha.
    destruct (Hfresh b a) as (h & bs & ch & _ & _ & _ & Hrange & Hpg & Hh & _ & Hn & _);
      [apply stacks_of_all; lia|].
    split; [|split].
    + apply (chain_page s1 _ h); [lia|exact Hh|].
      rewrite Hn, Hempty. constructor.
    + simpl. lia.
    + apply Forall_cons. split; [|apply Forall_nil; constructor].
      unfold SMALL_PAGE in *. Z.div_mod_to_equations. lia.
  - cbn [app]. unfold pages. rewrite all_pages_heads.
    apply NoDup_fmap_2_strong.
    + intros [b a] [b' a'] Hin Hin' Heq. exact (Hinj _ _ _ _ Hin Hin' Heq).
    + apply (bool_decide_unpack _). vm_compute. exact I.
  - exists s1, s2. split; [exact Hrun|]. split; [exact Hfree|].
    split; [exact Hstacks|]. intros b a Hb Ha.
    destruct (Hfresh b a) as (h & bs & ch & _ & _ & Hmp & Hrange & _);
      [apply stacks_of_all; assumption|].
    assert (Hin : stack_head s1 b a
                  ∈ [] ++ all_pages pages (seq 0 BUCKET_NUM) (seqZ 0 ARENA_NUM)).
    { cbn [app]. unfold pages. rewrite all_pages_heads.
      apply (list_elem_of_fmap_2 (λ p, stack_head s1 p.1 p.2) _ (b, a)).
      apply stacks_of_all; assumption. }
    split; [lia|]. split; [|split].
    + rewrite Hmp. eexists. reflexivity.
    + rewrite Hmaps, decide_True by exact Hin. reflexivity.
    + rewrite Hheaders, decide_True by exact Hin. reflexivity.
Qed.

Lemma constructor_then_destructor_witness :
  ∃ s1 s2, initialize_mutexes boot = Ret tt s1
           ∧ free_all_buckets 2 s1 = Ret O s2
           ∧ g_Bucket_Stacks s2 = g_Bucket_Stacks s1
           ∧ ∀ b a, (b < BUCKET_NUM)%nat → 0 ≤ a < ARENA_NUM →
               stack_head s1 b a ≠ 0
               ∧ is_Some (mappings s1 !! stack_head s1 b a)
               ∧ mappings s2 !! stack_head s1 b a = None
               ∧ headers s2 !! stack_head s1 b a = None.
Proof.
  apply (constructor_then_destructor boot); [reflexivity|reflexivity|].
  intros b a. reflexivity.
Defined.
